(** * ct-mirror: pending tree-head queue, reconciliation loop and start-up

    A shallow embedding of [cpp/server/ct-mirror.cc]:

    - the [new_sth] callback that files verified signed tree heads into the
      pending queue (a [std::map<int64_t, ct::SignedTreeHead>]),
    - [STHUpdater], the loop that hands queued heads to the cluster state
      controller once local storage has caught up,
    - the flag validators and the start-up sequence of [main].

    Calls into collaborators whose code lives elsewhere (the cluster state
    controller, the task, the database, the server) are recorded as effects
    in the order the source performs them. *)

From Stdlib Require Import ZArith List Bool String Lia Sorted QArith.
Import ListNotations.
Local Open Scope Z_scope.

(** ** Data *)

(** [ct::SignedTreeHead].  The source reads [tree_size()] and [timestamp()]
    only; both are 64-bit integers that are compared and never computed
    with, so they are kept as the integers they denote. *)
Record SignedTreeHead : Type := mkSTH {
  tree_size : Z;
  timestamp : Z;
  sha256_root_hash : string;
  signature : string
}.

(** ** [std::map<int64_t, ct::SignedTreeHead>]

    An ordered map is a list of entries kept in strictly ascending key
    order; [begin()] is its first entry. *)
Module StdMap.

Definition t : Type := list (Z * SignedTreeHead).

Definition empty (m : t) : bool :=
  match m with
  | [] => true
  | _ :: _ => false
  end.

(** [m.find(k)]: [None] stands for [m.end()]. *)
Fixpoint find (k : Z) (m : t) : option SignedTreeHead :=
  match m with
  | [] => None
  | (k', v') :: m' => if k =? k' then Some v' else find k m'
  end.

(** [m.insert(make_pair(k, v))]: the pair is added at its place in key
    order when [k] is absent; an entry already stored under [k] is kept
    and the map is left as it was. *)
Fixpoint insert (k : Z) (v : SignedTreeHead) (m : t) : t :=
  match m with
  | [] => [(k, v)]
  | (k', v') :: m' =>
      if k <? k' then (k, v) :: m
      else if k =? k' then m
      else (k', v') :: insert k v m'
  end.

(** [m.begin()] on a non-empty map. *)
Definition begin (m : t) : option (Z * SignedTreeHead) := hd_error m.

(** [m.erase(m.begin())]. *)
Definition erase_begin (m : t) : t := tl m.

Definition keys (m : t) : list Z := map fst m.

(** The representation invariant of the map: keys strictly ascending. *)
Definition ordered (m : t) : Prop := StronglySorted Z.lt (keys m).

End StdMap.

(** ** Effects

    What the callback and the updater do to the outside, in program
    order. *)

(** The [util::Status] codes this file passes to [Task::Return]. *)
Inductive Status : Type := OK | CANCELLED.

Inductive effect : Type :=
| LogWarningOlderSTH (had got : SignedTreeHead)
    (* LOG(WARNING) << "Received older STH: ..." *)
| TaskReturn (s : Status)
    (* task->Return(s) *)
| TreeSize (answer : Z)
    (* db->TreeSize(), with what it answered *)
| GaugeSet (v : Z)
    (* latest_local_tree_size_gauge->Set(v) *)
| LogInfoCanServe (size : Z)
    (* LOG(INFO) << "Can serve new STH of size ..." *)
| NewTreeHead (h : SignedTreeHead)
    (* cluster_state_controller->NewTreeHead(h) *)
| QueueErase (k : Z) (h : SignedTreeHead)
    (* queue->erase(it), [it] pointing at the entry [(k, h)] *)
| SleepFor (secs : Z).
    (* std::this_thread::sleep_for(seconds(secs)) *)

(** The heads handed to the cluster state controller, oldest first. *)
Fixpoint promoted (es : list effect) : list SignedTreeHead :=
  match es with
  | [] => []
  | NewTreeHead h :: es' => h :: promoted es'
  | _ :: es' => promoted es'
  end.

(** The entries erased from the queue, oldest first. *)
Fixpoint erased (es : list effect) : list (Z * SignedTreeHead) :=
  match es with
  | [] => []
  | QueueErase k h :: es' => (k, h) :: erased es'
  | _ :: es' => erased es'
  end.

(** ** The [new_sth] callback (lines 348-359)

    Runs with [queue_mutex] held from entry to exit. *)
Definition older_than_stored (sth : SignedTreeHead) (it : option SignedTreeHead) : bool :=
  match it with
  | Some had => timestamp sth <? timestamp had   (* it != queue.end() && ... *)
  | None => false
  end.

Definition new_sth (sth : SignedTreeHead) (queue : StdMap.t) : StdMap.t * list effect :=
  let it := StdMap.find (tree_size sth) queue in
  if older_than_stored sth it then
    match it with
    | Some had => (queue, [LogWarningOlderSTH had sth])
    | None => (queue, [])
    end
  else (StdMap.insert (tree_size sth) sth queue, []).

(** ** [STHUpdater] (lines 217-249)

    [main] passes the database, the controller, the mutex, the queue and
    the task by address, so the five [CHECK_NOTNULL] lines pass. *)

(** The inner loop, run with [queue_mutex] held:
    [while (!queue->empty() && queue->begin()->second.tree_size() <= local_size)].
    Each round erases [begin()], so the loop walks down the entry list. *)
Fixpoint drain (local_size : Z) (queue : StdMap.t) : StdMap.t * list effect :=
  match queue with
  | [] => ([], [])
  | (k, h) :: rest =>
      if tree_size h <=? local_size then
        let '(queue', es) := drain local_size rest in
        (queue', LogInfoCanServe (tree_size h) :: NewTreeHead h :: QueueErase k h :: es)
      else (queue, [])
  end.

(** One pass through the body of [while (true)].  [cancel_requested] is
    what [task->CancelRequested()] answers, [local_size] what
    [db->TreeSize()] answers and [freq] the value of
    [FLAGS_local_sth_update_frequency_seconds].  Nothing in the body leaves
    the loop: the statement after [task->Return] is the read of the tree
    size. *)
Definition STHUpdater_body (freq : Z) (cancel_requested : bool) (local_size : Z)
    (queue : StdMap.t) : StdMap.t * list effect :=
  let on_cancel := if cancel_requested then [TaskReturn CANCELLED] else [] in
  let '(queue', es) := drain local_size queue in
  (queue', on_cancel ++ TreeSize local_size :: GaugeSet local_size :: es ++ [SleepFor freq]).

(** ** A node: the two threads sharing the queue

    The callback and the inner loop of the updater exclude each other
    through [queue_mutex], so a run of the node is a sequence of whole
    callback executions and whole loop bodies.  A delivery that falls
    between the read of the tree size and the drain is a delivery before
    the pass, with the same [local_size].  What is proved of all runs holds
    of each of their prefixes, hence however long the two threads live. *)
Inductive event : Type :=
| Deliver (sth : SignedTreeHead)
| Pass (cancel_requested : bool) (local_size : Z).

Record node : Type := mkNode {
  queue : StdMap.t;
  effects : list effect
}.

Definition start : node := mkNode [] [].

(** What one event does to the queue, and the effects it has. *)
Definition react (freq : Z) (ev : event) (q : StdMap.t) : StdMap.t * list effect :=
  match ev with
  | Deliver sth => new_sth sth q
  | Pass c l => STHUpdater_body freq c l q
  end.

Definition step (freq : Z) (n : node) (ev : event) : node :=
  let '(q, es) := react freq ev (queue n) in mkNode q (effects n ++ es).

Definition run (freq : Z) (n : node) (evs : list event) : node :=
  fold_left (step freq) evs n.

(** ** Flags (lines 52-87) and their validators (lines 149-213) *)

Record Flags : Type := mkFlags {
  FLAGS_server : string;
  FLAGS_port : Z;
  FLAGS_cert_dir : string;
  FLAGS_tree_dir : string;
  FLAGS_meta_dir : string;
  FLAGS_sqlite_db : string;
  FLAGS_leveldb_db : string;
  FLAGS_cert_storage_depth : Z;
  FLAGS_tree_storage_depth : Z;
  FLAGS_log_stats_frequency_seconds : Z;
  FLAGS_target_poll_frequency_seconds : Z;
  FLAGS_etcd_host : string;
  FLAGS_etcd_port : Z;
  FLAGS_etcd_root : string;
  FLAGS_num_http_server_threads : Z;
  FLAGS_target_log_uri : string;
  FLAGS_target_public_key : string;
  FLAGS_local_sth_update_frequency_seconds : Z
}.

(** The values given in the [DEFINE_*] lines. *)
Definition default_flags : Flags := {|
  FLAGS_server := "localhost";
  FLAGS_port := 9999;
  FLAGS_cert_dir := "";
  FLAGS_tree_dir := "";
  FLAGS_meta_dir := "";
  FLAGS_sqlite_db := "";
  FLAGS_leveldb_db := "";
  FLAGS_cert_storage_depth := 0;
  FLAGS_tree_storage_depth := 0;
  FLAGS_log_stats_frequency_seconds := 3600;
  FLAGS_target_poll_frequency_seconds := 10;
  FLAGS_etcd_host := "";
  FLAGS_etcd_port := 0;
  FLAGS_etcd_root := "/root";
  FLAGS_num_http_server_threads := 16;
  FLAGS_target_log_uri := "http://ct.googleapis.com/pilot";
  FLAGS_target_public_key := "";
  FLAGS_local_sth_update_frequency_seconds := 30
|}.

(** What the process asks of its surroundings during start-up:
    [access(path, R_OK) == 0], [access(path, W_OK) == 0] and whether
    [ReadPublicKey(path)] yields an OK status. *)
Record Env : Type := mkEnv {
  access_R_OK : string -> bool;
  access_W_OK : string -> bool;
  ReadPublicKey_ok : string -> bool
}.

(** [s.empty()] *)
Definition str_empty (s : string) : bool :=
  match s with
  | EmptyString => true
  | String _ _ => false
  end.

(** The validators answer [false] after writing one line to [std::cout];
    the line is not part of the model. *)
Definition ValidatePort (flagname : string) (port : Z) : bool :=
  if (port <=? 0) || (port >? 65535) then false else true.

Definition ValidateRead (env : Env) (flagname : string) (path : string) : bool :=
  if negb (access_R_OK env path) then false else true.

Definition ValidateWrite (env : Env) (flagname : string) (path : string) : bool :=
  if negb (String.eqb path "") && negb (access_W_OK env path) then false else true.

Definition ValidateIsNonNegative (flagname : string) (value : Z) : bool :=
  if value <? 0 then false else true.

Definition ValidateIsPositive (flagname : string) (value : Z) : bool :=
  if value <=? 0 then false else true.

(** The eight [RegisterFlagValidator] lines: every registered validator
    accepts the value of its flag. *)
Definition registered_validators_accept (env : Env) (fl : Flags) : bool :=
  ValidatePort "port" (FLAGS_port fl)
  && ValidateRead env "target_public_key" (FLAGS_target_public_key fl)
  && ValidateWrite env "cert_dir" (FLAGS_cert_dir fl)
  && ValidateWrite env "tree_dir" (FLAGS_tree_dir fl)
  && ValidateIsNonNegative "cert_storage_depth" (FLAGS_cert_storage_depth fl)
  && ValidateIsNonNegative "tree_storage_depth" (FLAGS_tree_storage_depth fl)
  && ValidateIsPositive "log_stats_frequency_seconds"
       (FLAGS_log_stats_frequency_seconds fl)
  && ValidateIsPositive "target_poll_frequency_seconds"
       (FLAGS_target_poll_frequency_seconds fl).

(** ** [main] (lines 252-379) *)

(** [ct::ClusterConfig].  The fraction is set from the integer literal 1,
    which every binary floating-point format holds exactly; it is kept as a
    rational. *)
Record ClusterConfig : Type := mkClusterConfig {
  minimum_serving_nodes : Z;
  minimum_serving_fraction : Q
}.

(** [Server<LoggedCertificate>::Options] *)
Record ServerOptions : Type := mkServerOptions {
  opt_server : string;
  opt_port : Z;
  opt_etcd_root : string;
  opt_num_http_server_threads : Z
}.

Inductive signal_name : Type := SIGHUP | SIGINT | SIGTERM.

Inductive main_effect : Type :=
| SignalIgnore (s : signal_name)
| ParseCommandLineFlags
| InitGoogleLogging
| InstallFailureSignalHandler
| ServerStaticInit
| Cerr (msg : string)
| NewSQLiteDB (path : string)
| NewLevelDB (path : string)
| NewFileDB (cert_dir : string) (cert_depth : Z)
            (tree_dir : string) (tree_depth : Z) (meta_dir : string)
| NewEventBase
| NewUrlFetcher
| NewFakeEtcdClient
| NewEtcdClient (host : string) (port : Z)
| NewServer (options : ServerOptions)
| ServerInitialise (is_mirror : bool)
| LogInfoDefaultConfig (config : ClusterConfig)
| SetClusterConfig (config : ClusterConfig)
| StartElection
| WaitToBecomeMaster
| ReadPublicKey (path : string)
| NewThreadPool (threads : Z)
| NewSyncTask
| NewRemotePeer (target_log_uri : string)
| NewContinuousFetcher
| AddPeer (name : string)
| SpawnSTHUpdater
| ServerRun.

(** How start-up ends: [exit(status)], a failed [CHECK] (which aborts the
    process), or the server running. *)
Inductive outcome : Type :=
| Exited (status : Z)
| CheckFailed (what : string)
| Serving.

(** Start-up code: the effects performed so far, and either a value to go
    on with or the way the process ended. *)
Definition M (A : Type) : Type := list main_effect * (A + outcome).

Definition ret {A : Type} (a : A) : M A := ([], inl a).

Definition bind {A B : Type} (c : M A) (k : A -> M B) : M B :=
  match c with
  | (es, inl a) => let '(es', r) := k a in (es ++ es', r)
  | (es, inr o) => (es, inr o)
  end.

Definition emit (e : main_effect) : M unit := ([e], inl tt).

Definition stop {A : Type} (o : outcome) : M A := ([], inr o).

(** [CHECK(cond) << what] *)
Definition CHECK (cond : bool) (what : string) : M unit :=
  if cond then ret tt else stop (CheckFailed what).

Definition when (b : bool) (c : M unit) : M unit := if b then c else ret tt.

Declare Scope startup_scope.
Delimit Scope startup_scope with startup.
Notation "c1 ;; c2" := (bind c1 (fun _ => c2))
  (at level 61, right associativity) : startup_scope.
Local Open Scope startup_scope.

(** The test of lines 264-266: [bool]s are added as the integers 0 and 1,
    and [|] is the bitwise or of two of them. *)
Definition database_types_given (fl : Flags) : Z :=
  Z.b2z (negb (str_empty (FLAGS_sqlite_db fl)))
  + Z.b2z (negb (str_empty (FLAGS_leveldb_db fl)))
  + Z.lor (Z.b2z (negb (str_empty (FLAGS_cert_dir fl))))
          (Z.b2z (negb (str_empty (FLAGS_tree_dir fl)))).

Definition default_single_node_config : ClusterConfig :=
  {| minimum_serving_nodes := 1; minimum_serving_fraction := 1 |}.

Definition server_options (fl : Flags) : ServerOptions := {|
  opt_server := FLAGS_server fl;
  opt_port := FLAGS_port fl;
  opt_etcd_root := FLAGS_etcd_root fl;
  opt_num_http_server_threads := FLAGS_num_http_server_threads fl
|}.

(** Lines 253-262.  [google::ParseCommandLineFlags] runs the registered
    validators on the final flag values and ends the process with status 1
    when one of them refuses. *)
Definition parse_and_init (env : Env) (fl : Flags) : M unit :=
  emit (SignalIgnore SIGHUP) ;;
  emit (SignalIgnore SIGINT) ;;
  emit (SignalIgnore SIGTERM) ;;
  emit ParseCommandLineFlags ;;
  when (negb (registered_validators_accept env fl)) (stop (Exited 1)) ;;
  emit InitGoogleLogging ;;
  emit InstallFailureSignalHandler ;;
  emit ServerStaticInit.

(** Lines 264-274. *)
Definition check_database_flags (fl : Flags) : M unit :=
  when (negb (database_types_given fl =? 1))
       (emit (Cerr "Must only specify one database type.") ;; stop (Exited 1)) ;;
  when (str_empty (FLAGS_sqlite_db fl) && str_empty (FLAGS_leveldb_db fl))
       (CHECK (negb (String.eqb (FLAGS_cert_dir fl) (FLAGS_tree_dir fl)))
              "Certificate directory and tree directory must differ").

(** Lines 276-287. *)
Definition construct_database (fl : Flags) : M unit :=
  if negb (str_empty (FLAGS_sqlite_db fl)) then
    emit (NewSQLiteDB (FLAGS_sqlite_db fl))
  else if negb (str_empty (FLAGS_leveldb_db fl)) then
    emit (NewLevelDB (FLAGS_leveldb_db fl))
  else
    emit (NewFileDB (FLAGS_cert_dir fl) (FLAGS_cert_storage_depth fl)
                    (FLAGS_tree_dir fl) (FLAGS_tree_storage_depth fl)
                    (FLAGS_meta_dir fl)).

(** Lines 289-333. *)
Definition construct_server (fl : Flags) : M unit :=
  let stand_alone_mode := str_empty (FLAGS_etcd_host fl) in
  emit NewEventBase ;;
  emit NewUrlFetcher ;;
  (if stand_alone_mode then emit NewFakeEtcdClient
   else emit (NewEtcdClient (FLAGS_etcd_host fl) (FLAGS_etcd_port fl))) ;;
  emit (NewServer (server_options fl)) ;;
  emit (ServerInitialise true) ;;
  if stand_alone_mode then
    let config := default_single_node_config in
    emit (LogInfoDefaultConfig config) ;;
    emit (SetClusterConfig config) ;;
    emit StartElection ;;
    emit WaitToBecomeMaster
  else
    CHECK (negb (str_empty (FLAGS_server fl))) "!FLAGS_server.empty()".

(** Lines 335-379: the target log's key, the fetcher with its peer, the
    updater thread, and [server.Run()]. *)
Definition start_mirroring (env : Env) (fl : Flags) : M unit :=
  CHECK (negb (str_empty (FLAGS_target_public_key fl)))
        "!FLAGS_target_public_key.empty()" ;;
  CHECK (negb (str_empty (FLAGS_target_log_uri fl)))
        "!FLAGS_target_log_uri.empty()" ;;
  emit (ReadPublicKey (FLAGS_target_public_key fl)) ;;
  CHECK (ReadPublicKey_ok env (FLAGS_target_public_key fl)) "pubkey.ok()" ;;
  emit (NewThreadPool 16) ;;
  emit NewSyncTask ;;
  emit (NewRemotePeer (FLAGS_target_log_uri fl)) ;;
  emit NewContinuousFetcher ;;
  emit (AddPeer "target") ;;
  emit SpawnSTHUpdater ;;
  emit ServerRun.

(** [main], from its first line to the call of [server.Run()]. *)
Definition main (env : Env) (fl : Flags) : list main_effect * outcome :=
  let '(es, r) :=
    parse_and_init env fl ;;
    check_database_flags fl ;;
    construct_database fl ;;
    construct_server fl ;;
    start_mirroring env fl in
  (es, match r with inl _ => Serving | inr o => o end).

(** Effects that build or use the connection to the cluster store, the
    HTTP server or the target log. *)
Definition network_activity (e : main_effect) : bool :=
  match e with
  | NewEventBase | NewUrlFetcher | NewFakeEtcdClient | NewEtcdClient _ _
  | NewServer _ | ServerInitialise _ | SetClusterConfig _
  | StartElection | WaitToBecomeMaster
  | NewRemotePeer _ | NewContinuousFetcher | AddPeer _
  | SpawnSTHUpdater | ServerRun => true
  | _ => false
  end.

(** Effects that set up and start fetching from the target log. *)
Definition fetch_pipeline (e : main_effect) : bool :=
  match e with
  | NewThreadPool _ | NewSyncTask | NewRemotePeer _
  | NewContinuousFetcher | AddPeer _ | SpawnSTHUpdater => true
  | _ => false
  end.

(** Effects that construct the database. *)
Definition database_construction (e : main_effect) : bool :=
  match e with
  | NewSQLiteDB _ | NewLevelDB _ | NewFileDB _ _ _ _ _ => true
  | _ => false
  end.

(** ** Vocabulary of the properties *)

(** Which storage backends the flags select: the SQLite file, the LevelDB
    directory, or the file store through either of its two directories. *)
Definition sqlite_selected (fl : Flags) : bool := negb (str_empty (FLAGS_sqlite_db fl)).
Definition leveldb_selected (fl : Flags) : bool := negb (str_empty (FLAGS_leveldb_db fl)).
Definition file_selected (fl : Flags) : bool :=
  negb (str_empty (FLAGS_cert_dir fl)) || negb (str_empty (FLAGS_tree_dir fl)).

Definition exactly_one_backend (fl : Flags) : bool :=
  match sqlite_selected fl, leveldb_selected fl, file_selected fl with
  | true, false, false => true
  | false, true, false => true
  | false, false, true => true
  | _, _, _ => false
  end.

(** Every head handed to the controller is no larger than the tree size
    the database last answered; [local] is that answer, if there was one. *)
Fixpoint promotions_within (local : option Z) (es : list effect) : bool :=
  match es with
  | [] => true
  | TreeSize v :: es' => promotions_within (Some v) es'
  | NewTreeHead h :: es' =>
      match local with
      | Some l => tree_size h <=? l
      | None => false
      end && promotions_within local es'
  | _ :: es' => promotions_within local es'
  end.

(** Every erasure comes directly after the promotion of the erased head. *)
Definition erasures_follow_promotions (es : list effect) : Prop :=
  (forall k h, nth_error es 0 <> Some (QueueErase k h)) /\
  (forall i k h, nth_error es (S i) = Some (QueueErase k h) ->
                 nth_error es i = Some (NewTreeHead h)).

(** No head is delivered with a tree size below that of a head promoted
    before the delivery. *)
Fixpoint deliveries_not_behind (freq : Z) (n : node) (evs : list event) : bool :=
  match evs with
  | [] => true
  | ev :: evs' =>
      match ev with
      | Deliver sth =>
          forallb (fun h => tree_size h <=? tree_size sth) (promoted (effects n))
      | Pass _ _ => true
      end && deliveries_not_behind freq (step freq n ev) evs'
  end.

(** The queue of a node as the map and the callback maintain it: keys
    strictly ascending, every head filed under its own tree size. *)
Definition filed_by_size (q : StdMap.t) : Prop :=
  Forall (fun e => fst e = tree_size (snd e)) q.

Definition queue_ok (q : StdMap.t) : Prop :=
  StdMap.ordered q /\ filed_by_size q.

(** The invariant behind the order of promotions: the queue is in good
    order, what was promoted so far is non-decreasing, and nothing queued
    lies below anything promoted. *)
Definition promoted_below_queue (n : node) : Prop :=
  queue_ok (queue n) /\
  StronglySorted Z.le (map tree_size (promoted (effects n))) /\
  (forall h e, In h (promoted (effects n)) -> In e (queue n) ->
               tree_size h <= fst e).

(** Heads and runs used as examples. *)
Definition sample_head (size ts : Z) : SignedTreeHead := mkSTH size ts "" "".

(** Size 10 is delivered and promoted, then size 5 arrives. *)
Definition late_small_head : list event :=
  [Deliver (sample_head 10 1); Pass false 10; Deliver (sample_head 5 2); Pass false 10].

(** Sizes arrive in ascending order, two of them for one pass. *)
Definition heads_in_order : list event :=
  [Deliver (sample_head 5 1); Pass false 5; Deliver (sample_head 12 3);
   Deliver (sample_head 8 2); Pass false 20].

(** Start-up ended without the server running: a non-zero exit status or
    a failed [CHECK]. *)
Definition terminated_abnormally (o : outcome) : bool :=
  match o with
  | Exited status => negb (status =? 0)
  | CheckFailed _ => true
  | Serving => false
  end.

(** Surroundings in which every path can be read and written and the key
    file parses, and flag values used as examples. *)
Definition permissive_env : Env :=
  mkEnv (fun _ => true) (fun _ => true) (fun _ => true).

Definition file_store_flags (port : Z) (cert_dir tree_dir : string) : Flags :=
  mkFlags "localhost" port cert_dir tree_dir "/ct/meta" "" "" 0 0 3600 10
          "" 0 "/root" 16 "http://ct.googleapis.com/pilot" "/ct/key.pem" 30.

Definition two_databases_flags : Flags :=
  mkFlags "localhost" 9999 "" "" "" "/ct/db.sqlite" "/ct/leveldb" 0 0 3600 10
          "" 0 "/root" 16 "http://ct.googleapis.com/pilot" "/ct/key.pem" 30.

(** The same, by the shape of the list: an erasure only ever appears as the
    second half of a promote-then-erase pair. *)
Inductive erase_guarded : list effect -> Prop :=
| eg_nil : erase_guarded []
| eg_pair (k : Z) (h : SignedTreeHead) (es : list effect) :
    erase_guarded es -> erase_guarded (NewTreeHead h :: QueueErase k h :: es)
| eg_other (e : effect) (es : list effect) :
    (forall k h, e <> QueueErase k h) ->
    erase_guarded es -> erase_guarded (e :: es).

(** The heads handed to the callback in a run, oldest first. *)
Fixpoint delivered (evs : list event) : list SignedTreeHead :=
  match evs with
  | [] => []
  | Deliver sth :: evs' => sth :: delivered evs'
  | Pass _ _ :: evs' => delivered evs'
  end.

(** What [main] does up to and including [Server::StaticInit()] when flag
    parsing succeeds. *)
Definition preamble : list main_effect :=
  [SignalIgnore SIGHUP; SignalIgnore SIGINT; SignalIgnore SIGTERM;
   ParseCommandLineFlags; InitGoogleLogging; InstallFailureSignalHandler;
   ServerStaticInit].

(** The tests of lines 258-274 all pass: the validators accept, one
    backend is selected and, for the file store, the two directories
    differ. *)
Definition flag_checks_pass (env : Env) (fl : Flags) : Prop :=
  registered_validators_accept env fl = true /\
  exactly_one_backend fl = true /\
  (file_selected fl = true -> FLAGS_cert_dir fl <> FLAGS_tree_dir fl).

(** Surroundings in which the path names a file exactly when it is not
    empty: [access] fails on the empty path, every other path can be read and
    written, and the key file parses. *)
Definition strict_env : Env :=
  mkEnv (fun path => negb (str_empty path)) (fun path => negb (str_empty path))
        (fun _ => true).

(** Flag values for a node of a cluster, and for a mirror without a
    target log. *)
Definition cluster_flags (server : string) : Flags :=
  mkFlags server 9999 "" "" "" "/ct/db.sqlite" "" 0 0 3600 10
          "etcd.example" 4001 "/root" 16 "http://ct.googleapis.com/pilot"
          "/ct/key.pem" 30.

Definition no_target_flags : Flags :=
  mkFlags "localhost" 9999 "" "" "" "" "/ct/leveldb" 0 0 3600 10
          "" 0 "/root" 16 "" "/ct/key.pem" 30.

(** * Facts about the map *)

Module StdMapFacts.
Import StdMap.

Lemma ordered_nil : ordered [].
Proof. constructor. Qed.

Lemma ordered_tail (e : Z * SignedTreeHead) (m : t) :
  ordered (e :: m) -> ordered m.
Proof. intros H; inversion H; assumption. Qed.

Lemma ordered_head_lt (k : Z) (v : SignedTreeHead) (m : t) :
  ordered ((k, v) :: m) -> Forall (fun k' => k < k') (keys m).
Proof. intros H; inversion H; assumption. Qed.

Lemma keys_insert (k : Z) (v : SignedTreeHead) (m : t) (x : Z) :
  In x (keys (insert k v m)) -> x = k \/ In x (keys m).
Proof.
  induction m as [| [k' v'] m IH]; simpl.
  - intros [<- | []]; now left.
  - destruct (k <? k'); [| destruct (k =? k')]; simpl.
    + intros [<- | H]; [now left | now right].
    + intros H; now right.
    + intros [<- | H]; [right; now left |].
      destruct (IH H) as [-> | H']; [now left | right; now right].
Qed.

Lemma insert_ordered (k : Z) (v : SignedTreeHead) (m : t) :
  ordered m -> ordered (insert k v m).
Proof.
  unfold ordered.
  induction m as [| [k' v'] m IH]; simpl; intros Hm.
  - repeat constructor.
  - destruct (Z.ltb_spec k k') as [Hlt | Hge].
    + simpl. constructor; [exact Hm |].
      constructor; [exact Hlt |].
      inversion Hm as [| ? ? _ Hall]; subst.
      eapply Forall_impl; [| exact Hall]. simpl. intros; lia.
    + destruct (Z.eqb_spec k k') as [Heq | Hne]; [exact Hm |].
      inversion Hm as [| ? ? Hs Hall]; subst.
      simpl. constructor; [apply IH; exact Hs |].
      apply Forall_forall. intros x Hx.
      apply keys_insert in Hx. destruct Hx as [-> | Hx]; [lia |].
      rewrite Forall_forall in Hall. now apply Hall.
Qed.

(** [insert] never drops or rewrites an entry. *)
Lemma insert_keeps (k : Z) (v : SignedTreeHead) (m : t) (e : Z * SignedTreeHead) :
  In e m -> In e (insert k v m).
Proof.
  induction m as [| [k' v'] m IH]; simpl; [intros [] |].
  destruct (k <? k'); [| destruct (k =? k')]; simpl; intuition.
Qed.

Lemma insert_adds_only (k : Z) (v : SignedTreeHead) (m : t) (e : Z * SignedTreeHead) :
  In e (insert k v m) -> e = (k, v) \/ In e m.
Proof.
  induction m as [| [k' v'] m IH]; simpl.
  - intros [<- | []]; now left.
  - destruct (k <? k'); [| destruct (k =? k')]; simpl; intuition.
Qed.

Lemma find_some (k : Z) (v : SignedTreeHead) (m : t) :
  find k m = Some v -> In (k, v) m.
Proof.
  induction m as [| [k' v'] m IH]; simpl; [discriminate |].
  destruct (Z.eqb_spec k k') as [-> | Hne].
  - intros [= ->]. now left.
  - intros H. right. now apply IH.
Qed.

Lemma find_none (k : Z) (m : t) :
  find k m = None -> ~ In k (keys m).
Proof.
  induction m as [| [k' v'] m IH]; simpl; [tauto |].
  destruct (Z.eqb_spec k k') as [-> | Hne]; [discriminate |].
  intros H [Heq | Hin]; [congruence | now apply IH].
Qed.

(** The first entry of an ordered map is the one [find] returns for its
    key. *)
Lemma find_ordered (k : Z) (v : SignedTreeHead) (m : t) :
  ordered m -> In (k, v) m -> find k m = Some v.
Proof.
  induction m as [| [k' v'] m IH]; simpl; [intros _ [] |].
  intros Hm [[= -> ->] | Hin].
  - now rewrite Z.eqb_refl.
  - destruct (Z.eqb_spec k k') as [-> | Hne].
    + apply ordered_head_lt in Hm. rewrite Forall_forall in Hm.
      specialize (Hm k' (in_map fst _ _ Hin)). simpl in Hm. lia.
    + apply IH; [eapply ordered_tail; exact Hm | exact Hin].
Qed.

(** On a key that is present, [insert] is the identity. *)
Lemma insert_present (k : Z) (v had : SignedTreeHead) (m : t) :
  ordered m -> find k m = Some had -> insert k v m = m.
Proof.
  induction m as [| [k' v'] m IH]; simpl; [discriminate |].
  intros Hm. destruct (Z.eqb_spec k k') as [-> | Hne].
  - intros _. now rewrite Z.ltb_irrefl.
  - intros Hf. destruct (Z.ltb_spec k k') as [Hlt | Hge].
    + apply find_some in Hf. apply ordered_head_lt in Hm.
      rewrite Forall_forall in Hm.
      specialize (Hm k (in_map fst _ _ Hf)). simpl in Hm. lia.
    + rewrite IH; [reflexivity | eapply ordered_tail; exact Hm | exact Hf].
Qed.

Lemma find_insert_absent (k : Z) (v : SignedTreeHead) (m : t) :
  find k m = None -> find k (insert k v m) = Some v.
Proof.
  induction m as [| [k' v'] m IH]; simpl.
  - now rewrite Z.eqb_refl.
  - destruct (Z.eqb_spec k k') as [-> | Hne]; [discriminate |].
    intros Hf. destruct (Z.ltb_spec k k'); simpl.
    + now rewrite Z.eqb_refl.
    + destruct (Z.eqb_spec k k'); [contradiction | now apply IH].
Qed.

Lemma ordered_keys_NoDup (m : t) : ordered m -> NoDup (keys m).
Proof.
  unfold ordered. induction 1 as [| k ks Hs IH Hall]; constructor; [| exact IH].
  intros Hin. rewrite Forall_forall in Hall. specialize (Hall k Hin). lia.
Qed.

End StdMapFacts.

(** * Facts about sorted lists and effect lists *)

Section SortedAppend.
Context {A : Type} (R : A -> A -> Prop).

Lemma StronglySorted_append (l1 l2 : list A) :
  StronglySorted R l1 -> StronglySorted R l2 ->
  (forall x y, In x l1 -> In y l2 -> R x y) ->
  StronglySorted R (l1 ++ l2).
Proof.
  induction l1 as [| a l1 IH]; simpl; intros H1 H2 H12; [exact H2 |].
  inversion H1 as [| ? ? Hs Hall]; subst.
  constructor.
  - apply IH; auto.
  - apply Forall_app. split; [exact Hall |].
    apply Forall_forall. intros y Hy. apply H12; auto.
Qed.

Lemma StronglySorted_split (l1 l2 : list A) :
  StronglySorted R (l1 ++ l2) ->
  StronglySorted R l1 /\ StronglySorted R l2 /\
  (forall x y, In x l1 -> In y l2 -> R x y).
Proof.
  induction l1 as [| a l1 IH]; simpl; intros H.
  - repeat split; [constructor | exact H | intros x y []].
  - inversion H as [| ? ? Hs Hall]; subst.
    destruct (IH Hs) as (IH1 & IH2 & IH3).
    apply Forall_app in Hall. destruct Hall as [Ha1 Ha2].
    repeat split; [constructor; assumption | exact IH2 |].
    intros x y [<- | Hx] Hy.
    + rewrite Forall_forall in Ha2. now apply Ha2.
    + now apply IH3.
Qed.

End SortedAppend.

Lemma promoted_app (es1 es2 : list effect) :
  promoted (es1 ++ es2) = promoted es1 ++ promoted es2.
Proof.
  induction es1 as [| e es1 IH]; simpl; [reflexivity |].
  destruct e; simpl; rewrite ?IH; reflexivity.
Qed.

Lemma erased_app (es1 es2 : list effect) :
  erased (es1 ++ es2) = erased es1 ++ erased es2.
Proof.
  induction es1 as [| e es1 IH]; simpl; [reflexivity |].
  destruct e; simpl; rewrite ?IH; reflexivity.
Qed.

Lemma promotions_within_app (local : option Z) (es1 es2 : list effect) :
  promotions_within local es1 = true ->
  (forall local', promotions_within local' es2 = true) ->
  promotions_within local (es1 ++ es2) = true.
Proof.
  revert local. induction es1 as [| e es1 IH]; simpl; intros local H1 H2.
  - apply H2.
  - destruct e; auto.
    apply andb_true_iff in H1. destruct H1 as [Hh Ht].
    rewrite Hh. simpl. auto.
Qed.

Lemma erase_guarded_app (es1 es2 : list effect) :
  erase_guarded es1 -> erase_guarded es2 -> erase_guarded (es1 ++ es2).
Proof.
  induction 1; simpl; intros H2; [exact H2 | |]; constructor; auto.
Qed.

Lemma erase_guarded_positional (es : list effect) :
  erase_guarded es -> erasures_follow_promotions es.
Proof.
  unfold erasures_follow_promotions.
  induction 1 as [| k h es Hg [IH0 IHS] | e es Hne Hg [IH0 IHS]].
  - split; [intros k h; simpl; discriminate |].
    intros i k h; simpl; discriminate.
  - split; [intros k' h'; simpl; discriminate |].
    intros [| [| i]] k' h'; simpl.
    + intros [= _ ->]. reflexivity.
    + intros H0. now apply IH0 in H0.
    + apply IHS.
  - split; [intros k h; simpl; intros [= ->]; now apply (Hne k h) |].
    intros [| i] k h; simpl.
    + intros H0. now apply IH0 in H0.
    + apply IHS.
Qed.

(** * Facts about the callback *)

Lemma new_sth_cases (sth : SignedTreeHead) (q : StdMap.t) :
  (exists had, StdMap.find (tree_size sth) q = Some had /\
               timestamp sth < timestamp had /\
               new_sth sth q = (q, [LogWarningOlderSTH had sth])) \/
  new_sth sth q = (StdMap.insert (tree_size sth) sth q, []).
Proof.
  unfold new_sth, older_than_stored.
  destruct (StdMap.find (tree_size sth) q) as [had |]; [| now right].
  destruct (Z.ltb_spec (timestamp sth) (timestamp had)); [left | now right].
  exists had. auto.
Qed.

Lemma new_sth_keeps (sth : SignedTreeHead) (q : StdMap.t) (e : Z * SignedTreeHead) :
  In e q -> In e (fst (new_sth sth q)).
Proof.
  destruct (new_sth_cases sth q) as [(had & _ & _ & ->) | ->]; simpl; [auto |].
  apply StdMapFacts.insert_keeps.
Qed.

Lemma new_sth_adds_only (sth : SignedTreeHead) (q : StdMap.t) (e : Z * SignedTreeHead) :
  In e (fst (new_sth sth q)) -> e = (tree_size sth, sth) \/ In e q.
Proof.
  destruct (new_sth_cases sth q) as [(had & _ & _ & ->) | ->]; simpl; [auto |].
  apply StdMapFacts.insert_adds_only.
Qed.

Lemma new_sth_silent (sth : SignedTreeHead) (q : StdMap.t) :
  promoted (snd (new_sth sth q)) = [] /\ erased (snd (new_sth sth q)) = [] /\
  erase_guarded (snd (new_sth sth q)) /\
  forall local, promotions_within local (snd (new_sth sth q)) = true.
Proof.
  destruct (new_sth_cases sth q) as [(had & _ & _ & ->) | ->]; simpl;
    repeat split; auto; repeat constructor; discriminate.
Qed.

Lemma new_sth_queue_ok (sth : SignedTreeHead) (q : StdMap.t) :
  queue_ok q -> queue_ok (fst (new_sth sth q)).
Proof.
  intros [Hord Hfiled]. split.
  - destruct (new_sth_cases sth q) as [(had & _ & _ & ->) | ->]; simpl; [auto |].
    now apply StdMapFacts.insert_ordered.
  - apply Forall_forall. intros e He.
    apply new_sth_adds_only in He. destruct He as [-> | He]; [reflexivity |].
    unfold filed_by_size in Hfiled. rewrite Forall_forall in Hfiled. auto.
Qed.

(** * Facts about the drain *)

(** [drain] is the loop of the source, one round unfolded. *)
Lemma drain_loop (local_size : Z) (q : StdMap.t) :
  drain local_size q =
  match StdMap.begin q with
  | Some (k, h) =>
      if negb (StdMap.empty q) && (tree_size h <=? local_size) then
        let '(q', es) := drain local_size (StdMap.erase_begin q) in
        (q', LogInfoCanServe (tree_size h) :: NewTreeHead h :: QueueErase k h :: es)
      else (q, [])
  | None => (q, [])
  end.
Proof. destruct q as [| [k h] q]; reflexivity. Qed.

Lemma drain_split (local_size : Z) (q : StdMap.t) :
  q = erased (snd (drain local_size q)) ++ fst (drain local_size q) /\
  promoted (snd (drain local_size q)) = map snd (erased (snd (drain local_size q))).
Proof.
  induction q as [| [k h] q [IH1 IH2]]; simpl; [auto |].
  destruct (tree_size h <=? local_size); simpl; [| auto].
  destruct (drain local_size q) as [q' es]; simpl in *.
  split; congruence.
Qed.

Lemma drain_within (local_size : Z) (q : StdMap.t) :
  Forall (fun h => tree_size h <= local_size) (promoted (snd (drain local_size q))) /\
  forall local, promotions_within (Some local_size) (snd (drain local_size q) ++ [SleepFor local]) = true.
Proof.
  induction q as [| [k h] q [IH1 IH2]]; simpl; [auto |].
  destruct (Z.leb_spec (tree_size h) local_size) as [Hle | Hgt]; simpl; [| auto].
  destruct (drain local_size q) as [q' es]; simpl in *.
  split; [constructor; assumption |].
  intros local. rewrite IH2. apply Z.leb_le in Hle. now rewrite Hle.
Qed.

Lemma drain_guarded (local_size : Z) (q : StdMap.t) :
  erase_guarded (snd (drain local_size q)).
Proof.
  induction q as [| [k h] q IH]; simpl; [constructor |].
  destruct (tree_size h <=? local_size); simpl; [| constructor].
  destruct (drain local_size q) as [q' es]; simpl in *.
  apply eg_other; [discriminate |]. now apply eg_pair.
Qed.

(** What a drain leaves and what it promotes, on a queue in good order:
    the rest is in good order, the batch is strictly ascending in tree
    size, and everything promoted lies below everything left. *)
Lemma drain_ordered (local_size : Z) (q : StdMap.t) :
  queue_ok q ->
  queue_ok (fst (drain local_size q)) /\
  StronglySorted Z.lt (map tree_size (promoted (snd (drain local_size q)))) /\
  (forall h e, In h (promoted (snd (drain local_size q))) ->
               In e (fst (drain local_size q)) -> tree_size h < fst e) /\
  (forall h, In h (promoted (snd (drain local_size q))) ->
             exists k, In (k, h) q).
Proof.
  intros [Hord Hfiled].
  destruct (drain_split local_size q) as [Hq Hp].
  set (gone := erased (snd (drain local_size q))) in *.
  set (q' := fst (drain local_size q)) in *.
  rewrite Hp. clearbody gone q'. subst q.
  unfold StdMap.ordered, StdMap.keys in Hord. rewrite map_app in Hord.
  apply StronglySorted_split in Hord. destruct Hord as (Hg & Hq' & Hlt).
  unfold filed_by_size in Hfiled. apply Forall_app in Hfiled.
  destruct Hfiled as [Hfg Hfq'].
  assert (Hsame : map tree_size (map snd gone) = map fst gone).
  { rewrite map_map. apply map_ext_in. intros e He.
    rewrite Forall_forall in Hfg. symmetry. now apply Hfg. }
  repeat split.
  - exact Hq'.
  - exact Hfq'.
  - rewrite Hsame. exact Hg.
  - intros h e Hh He. apply in_map_iff in Hh. destruct Hh as (e' & <- & He').
    rewrite Forall_forall in Hfg. rewrite <- (Hfg e' He').
    apply Hlt; now apply in_map.
  - intros h Hh. apply in_map_iff in Hh. destruct Hh as ([k h'] & <- & He').
    exists k. apply in_or_app. now left.
Qed.

(** * Facts about a pass and about runs *)

Lemma STHUpdater_body_eq (freq : Z) (c : bool) (l : Z) (q : StdMap.t) :
  STHUpdater_body freq c l q =
  (fst (drain l q),
   (if c then [TaskReturn CANCELLED] else []) ++
   TreeSize l :: GaugeSet l :: snd (drain l q) ++ [SleepFor freq]).
Proof. unfold STHUpdater_body. now destruct (drain l q). Qed.

Lemma STHUpdater_body_promoted (freq : Z) (c : bool) (l : Z) (q : StdMap.t) :
  promoted (snd (STHUpdater_body freq c l q)) = promoted (snd (drain l q)).
Proof.
  rewrite STHUpdater_body_eq. simpl. rewrite promoted_app. simpl.
  rewrite promoted_app. simpl. rewrite app_nil_r. now destruct c.
Qed.

Lemma step_eq (freq : Z) (n : node) (ev : event) :
  step freq n ev =
  mkNode (fst (react freq ev (queue n))) (effects n ++ snd (react freq ev (queue n))).
Proof. unfold step. now destruct (react freq ev (queue n)). Qed.

Lemma react_queue_ok (freq : Z) (ev : event) (q : StdMap.t) :
  queue_ok q -> queue_ok (fst (react freq ev q)).
Proof.
  destruct ev as [sth | c l]; simpl; intros Hq.
  - now apply new_sth_queue_ok.
  - rewrite STHUpdater_body_eq. simpl. now apply drain_ordered.
Qed.

Lemma react_guarded (freq : Z) (ev : event) (q : StdMap.t) :
  erase_guarded (snd (react freq ev q)).
Proof.
  destruct ev as [sth | c l]; simpl.
  - apply new_sth_silent.
  - rewrite STHUpdater_body_eq. simpl.
    apply erase_guarded_app; [destruct c; repeat constructor; discriminate |].
    apply eg_other; [discriminate |]. apply eg_other; [discriminate |].
    apply erase_guarded_app; [apply drain_guarded |].
    repeat constructor; discriminate.
Qed.

Lemma react_within (freq : Z) (ev : event) (q : StdMap.t) (local : option Z) :
  promotions_within local (snd (react freq ev q)) = true.
Proof.
  destruct ev as [sth | c l]; simpl.
  - apply new_sth_silent.
  - rewrite STHUpdater_body_eq. simpl.
    destruct c; simpl; apply drain_within.
Qed.

Lemma start_queue_ok : queue_ok (queue start).
Proof. split; constructor. Qed.

Lemma run_queue_ok (freq : Z) (evs : list event) (n : node) :
  queue_ok (queue n) -> queue_ok (queue (run freq n evs)).
Proof.
  revert n. induction evs as [| ev evs IH]; simpl; intros n Hn; [exact Hn |].
  apply IH. rewrite step_eq. simpl. now apply react_queue_ok.
Qed.

Lemma run_guarded (freq : Z) (evs : list event) (n : node) :
  erase_guarded (effects n) -> erase_guarded (effects (run freq n evs)).
Proof.
  revert n. induction evs as [| ev evs IH]; simpl; intros n Hn; [exact Hn |].
  apply IH. rewrite step_eq. simpl.
  apply erase_guarded_app; [exact Hn | apply react_guarded].
Qed.

Lemma run_within (freq : Z) (evs : list event) (n : node) (local : option Z) :
  promotions_within local (effects n) = true ->
  promotions_within local (effects (run freq n evs)) = true.
Proof.
  revert n. induction evs as [| ev evs IH]; simpl; intros n Hn; [exact Hn |].
  apply IH. rewrite step_eq. simpl.
  apply promotions_within_app; [exact Hn |]. intros local'. apply react_within.
Qed.

Lemma step_promoted_below_queue (freq : Z) (n : node) (ev : event) :
  promoted_below_queue n ->
  deliveries_not_behind freq n [ev] = true ->
  promoted_below_queue (step freq n ev).
Proof.
  intros (Hq & Hs & Hb) Hd. rewrite step_eq.
  split; [simpl; now apply react_queue_ok |].
  simpl in Hd. rewrite andb_true_r in Hd.
  destruct ev as [sth | c l]; simpl.
  - destruct (new_sth_silent sth (queue n)) as (Hp & _).
    rewrite promoted_app, Hp, app_nil_r. split; [exact Hs |].
    intros h e Hh He. apply new_sth_adds_only in He.
    destruct He as [-> | He]; [| now apply Hb].
    rewrite forallb_forall in Hd. simpl. apply Z.leb_le. now apply Hd.
  - rewrite promoted_app, STHUpdater_body_promoted, STHUpdater_body_eq. simpl.
    destruct (drain_ordered l (queue n) Hq) as (_ & Hbatch & Hlt & Hfrom).
    destruct (drain_split l (queue n)) as [Hsplit _].
    assert (Hrest : forall e, In e (fst (drain l (queue n))) -> In e (queue n)).
    { intros e He. rewrite Hsplit. apply in_or_app. now right. }
    split.
    + rewrite map_app. apply StronglySorted_append.
      * exact Hs.
      * clear -Hbatch. induction Hbatch as [| a l' _ IH Hall]; constructor; auto.
        eapply Forall_impl; [| exact Hall]. simpl. intros; lia.
      * intros x y Hx Hy.
        apply in_map_iff in Hx. destruct Hx as (hx & <- & Hx).
        apply in_map_iff in Hy. destruct Hy as (hy & <- & Hy).
        destruct (Hfrom hy Hy) as (k & Hk).
        destruct Hq as [_ Hfiled]. unfold filed_by_size in Hfiled.
        rewrite Forall_forall in Hfiled.
        specialize (Hfiled (k, hy) Hk). simpl in Hfiled. rewrite <- Hfiled.
        apply (Hb hx (k, hy)); assumption.
    + intros h e Hh He. apply in_app_or in Hh. destruct Hh as [Hh | Hh].
      * apply Hb; auto.
      * apply Z.lt_le_incl. now apply Hlt.
Qed.

Lemma run_promoted_below_queue (freq : Z) (evs : list event) (n : node) :
  promoted_below_queue n ->
  deliveries_not_behind freq n evs = true ->
  promoted_below_queue (run freq n evs).
Proof.
  revert n. induction evs as [| ev evs IH]; simpl; intros n Hn Hd; [exact Hn |].
  apply andb_true_iff in Hd. destruct Hd as [Hev Hd].
  apply IH; [| exact Hd].
  apply step_promoted_below_queue; [exact Hn |].
  simpl. now rewrite Hev.
Qed.

Lemma start_promoted_below_queue : promoted_below_queue start.
Proof.
  split; [apply start_queue_ok |]. split; [constructor |].
  intros h e [].
Qed.

(** * The pending queue and the reconciliation loop *)

(** A head that finds its tree size already queued never takes the place of
    the stored head, whatever the timestamps. *)
Lemma new_sth_never_replaces (sth had : SignedTreeHead) (q : StdMap.t) :
  StdMap.ordered q ->
  StdMap.find (tree_size sth) q = Some had ->
  fst (new_sth sth q) = q.
Proof.
  intros Hord Hfind.
  destruct (new_sth_cases sth q) as [(had' & _ & _ & ->) | ->]; simpl; [reflexivity |].
  eapply StdMapFacts.insert_present; eassumption.
Qed.

(** C1 (the head with the larger timestamp is the one retained), on the
    code: a head of size 5 and timestamp 10 is delivered to an empty queue,
    then a head of size 5 and timestamp 20.  The callback passes the
    timestamp test and calls [queue.insert], which leaves the entry already
    filed under 5 in place: the queue holds the head with timestamp 10 and
    the newer head is dropped. *)
Theorem new_sth_newer_head_dropped :
  queue (run 30 start [Deliver (sample_head 5 10); Deliver (sample_head 5 20)])
  = [(5, sample_head 5 10)].
Proof. reflexivity. Qed.

(** C2: every head the reconciliation loop hands to
    [ClusterStateController::NewTreeHead] has a tree size no larger than the
    local tree size read in that pass.  Stated for one pass from any queue,
    and for whole runs of the node, where each promotion is compared with
    the latest answer of [db->TreeSize()]; the callback promotes nothing. *)
Theorem promoted_within_local_tree_size :
  forall freq : Z,
    (forall c l q,
        Forall (fun h => tree_size h <= l)
               (promoted (snd (STHUpdater_body freq c l q)))) /\
    (forall sth q, promoted (snd (new_sth sth q)) = []) /\
    (forall evs, promotions_within None (effects (run freq start evs)) = true).
Proof.
  intros freq. repeat split.
  - intros c l q. rewrite STHUpdater_body_promoted. apply drain_within.
  - intros sth q. apply new_sth_silent.
  - intros evs. now apply run_within.
Qed.

(** C3 as stated fails: a head of size 10 is promoted, a head of size 5 is
    delivered afterwards and promoted by the next pass. *)
Lemma promotions_not_monotone :
  map tree_size (promoted (effects (run 30 start late_small_head))) = [10; 5] /\
  ~ Sorted Z.le (map tree_size (promoted (effects (run 30 start late_small_head)))).
Proof.
  split; [reflexivity |].
  intros H. inversion H as [| ? ? _ Hhd]; subst.
  inversion Hhd as [| ? ? Hle]; subst. lia.
Qed.

(** C3, amended: in every pass of the loop the heads handed to
    [NewTreeHead] are strictly ascending in tree size; and over a whole run
    the promoted sizes are non-decreasing provided no head is delivered with
    a tree size below that of a head promoted before it. *)
Theorem promotions_ascending :
  forall freq evs,
    (forall c l,
        Sorted Z.lt
          (map tree_size
               (promoted (snd (STHUpdater_body freq c l (queue (run freq start evs))))))) /\
    (deliveries_not_behind freq start evs = true ->
     Sorted Z.le (map tree_size (promoted (effects (run freq start evs))))).
Proof.
  intros freq evs. split.
  - intros c l. rewrite STHUpdater_body_promoted.
    apply StronglySorted_Sorted.
    apply drain_ordered. apply run_queue_ok. apply start_queue_ok.
  - intros Hd. apply StronglySorted_Sorted.
    apply (run_promoted_below_queue freq evs start start_promoted_below_queue Hd).
Qed.

Lemma promotions_ascending_witness :
  deliveries_not_behind 30 start heads_in_order = true /\
  Sorted Z.le (map tree_size (promoted (effects (run 30 start heads_in_order)))).
Proof.
  split; [reflexivity |].
  apply (proj2 (promotions_ascending 30 heads_in_order)). reflexivity.
Defined.

(** C4 (the loop leaves on cancellation, before its next sleep), on the
    code: when [task->CancelRequested()] answers true the body calls
    [task->Return(CANCELLED)] and goes on with the rest of the pass: it
    reads the tree size, sets the gauge, drains the queue and sleeps. *)
Theorem STHUpdater_keeps_going_after_cancel :
  forall freq l q,
    STHUpdater_body freq true l q =
    (fst (drain l q),
     TaskReturn CANCELLED :: TreeSize l :: GaugeSet l ::
       snd (drain l q) ++ [SleepFor freq]) /\
    effects (run 30 start [Deliver (sample_head 5 10); Pass true 7]) =
    [TaskReturn CANCELLED; TreeSize 7; GaugeSet 7; LogInfoCanServe 5;
     NewTreeHead (sample_head 5 10); QueueErase 5 (sample_head 5 10); SleepFor 30].
Proof.
  intros freq l q. split; [apply STHUpdater_body_eq | reflexivity].
Qed.

(** C5: a head whose tree size is already queued with a strictly newer
    timestamp leaves the queue exactly as it was (the callback only logs a
    warning), and the queue of a node never holds two entries of one tree
    size: its keys are distinct and every head is filed under its own
    size. *)
Theorem older_head_is_no_op :
  forall freq evs sth had,
    let q := queue (run freq start evs) in
    (StdMap.find (tree_size sth) q = Some had ->
     timestamp sth < timestamp had ->
     new_sth sth q = (q, [LogWarningOlderSTH had sth])) /\
    NoDup (map (fun e => tree_size (snd e)) q) /\
    NoDup (StdMap.keys q).
Proof.
  intros freq evs sth had q.
  assert (Hq : queue_ok q) by (apply run_queue_ok, start_queue_ok).
  destruct Hq as [Hord Hfiled].
  assert (Hkeys : map (fun e => tree_size (snd e)) q = StdMap.keys q).
  { unfold StdMap.keys. apply map_ext_in. intros e He.
    unfold filed_by_size in Hfiled. rewrite Forall_forall in Hfiled.
    symmetry. now apply Hfiled. }
  split; [| rewrite Hkeys; split; now apply StdMapFacts.ordered_keys_NoDup].
  intros Hfind Hlt. unfold new_sth, older_than_stored. rewrite Hfind.
  apply Z.ltb_lt in Hlt. now rewrite Hlt.
Qed.

Lemma older_head_is_no_op_witness :
  let q := queue (run 30 start [Deliver (sample_head 5 20)]) in
  new_sth (sample_head 5 10) q = (q, [LogWarningOlderSTH (sample_head 5 20) (sample_head 5 10)]).
Proof.
  apply (proj1 (older_head_is_no_op 30 [Deliver (sample_head 5 20)]
                  (sample_head 5 10) (sample_head 5 20))).
  - reflexivity.
  - simpl. lia.
Defined.

Lemma STHUpdater_body_split (freq : Z) (c : bool) (l : Z) (q : StdMap.t) :
  q = erased (snd (STHUpdater_body freq c l q)) ++ fst (STHUpdater_body freq c l q) /\
  promoted (snd (STHUpdater_body freq c l q)) =
  map snd (erased (snd (STHUpdater_body freq c l q))).
Proof.
  rewrite STHUpdater_body_promoted, STHUpdater_body_eq. simpl.
  assert (He : erased ((if c then [TaskReturn CANCELLED] else []) ++
                       TreeSize l :: GaugeSet l :: snd (drain l q) ++ [SleepFor freq])
               = erased (snd (drain l q))).
  { rewrite erased_app. simpl. rewrite erased_app. simpl.
    rewrite app_nil_r. now destruct c. }
  rewrite He. apply drain_split.
Qed.

(** What one event does to an entry of the queue: it is still queued
    afterwards, or the event is a pass that promoted and erased it. *)
Lemma step_keeps_or_promotes (freq : Z) (n : node) (ev : event)
    (e : Z * SignedTreeHead) :
  In e (queue n) ->
  In e (queue (step freq n ev)) \/
  ((exists c l, ev = Pass c l) /\
   In (snd e) (promoted (snd (react freq ev (queue n)))) /\
   In e (erased (snd (react freq ev (queue n))))).
Proof.
  intros Hin. rewrite step_eq. simpl.
  destruct ev as [sth | c l]; simpl.
  - left. now apply new_sth_keeps.
  - destruct (STHUpdater_body_split freq c l (queue n)) as [Hsplit Hprom].
    rewrite Hsplit in Hin. apply in_app_or in Hin.
    destruct Hin as [Hgone | Hleft]; [right | now left].
    split; [now exists c, l |].
    split; [| exact Hgone].
    rewrite Hprom. now apply in_map.
Qed.

Lemma run_keeps_or_promotes (freq : Z) (evs : list event) (n : node) :
  exists later,
    effects (run freq n evs) = effects n ++ later /\
    forall e, In e (queue n) ->
              In e (queue (run freq n evs)) \/
              (In (snd e) (promoted later) /\ In e (erased later)).
Proof.
  revert n. induction evs as [| ev evs IH]; intros n.
  - exists []. simpl. rewrite app_nil_r. auto.
  - change (run freq n (ev :: evs)) with (run freq (step freq n ev) evs).
    destruct (IH (step freq n ev)) as (later & Heff & Hkeep).
    exists (snd (react freq ev (queue n)) ++ later). split.
    + rewrite Heff, step_eq. simpl. now rewrite app_assoc.
    + intros e Hin. rewrite promoted_app, erased_app.
      destruct (step_keeps_or_promotes freq n ev e Hin) as [Hstill | (_ & Hp & He)].
      * destruct (Hkeep e Hstill) as [Hq | [Hp He]]; [now left | right].
        split; apply in_or_app; now right.
      * right. split; apply in_or_app; now left.
Qed.

Lemma run_app (freq : Z) (n : node) (evs1 evs2 : list event) :
  run freq n (evs1 ++ evs2) = run freq (run freq n evs1) evs2.
Proof. unfold run. apply fold_left_app. Qed.

(** C6: entries leave the queue only by promotion.  The callback keeps
    every entry, erases nothing and never shortens the queue.  A pass of
    the loop takes away exactly the entries it erased, and those are the
    entries whose heads it handed to [NewTreeHead]: the queue before the
    pass is the erased entries followed by the queue after it.  An entry
    that one event removes from the queue of a node was removed by a pass
    that promoted it; over a run, an entry once queued is still queued
    later on or was promoted and erased in between; and each erasure comes
    directly after the [NewTreeHead] call for the erased head. *)
Theorem removed_only_when_promoted :
  forall freq : Z,
    (forall sth q,
        (forall e, In e q -> In e (fst (new_sth sth q))) /\
        (List.length q <= List.length (fst (new_sth sth q)))%nat /\
        erased (snd (new_sth sth q)) = []) /\
    (forall l q,
        q = erased (snd (drain l q)) ++ fst (drain l q) /\
        promoted (snd (drain l q)) = map snd (erased (snd (drain l q)))) /\
    (forall evs, erasures_follow_promotions (effects (run freq start evs))) /\
    (forall c l q,
        q = erased (snd (STHUpdater_body freq c l q)) ++
            fst (STHUpdater_body freq c l q) /\
        promoted (snd (STHUpdater_body freq c l q)) =
        map snd (erased (snd (STHUpdater_body freq c l q)))) /\
    (forall n ev e,
        In e (queue n) -> ~ In e (queue (step freq n ev)) ->
        (exists c l, ev = Pass c l) /\
        In (snd e) (promoted (snd (react freq ev (queue n)))) /\
        In e (erased (snd (react freq ev (queue n))))) /\
    (forall evs1 evs2 e,
        In e (queue (run freq start evs1)) ->
        exists later,
          effects (run freq start (evs1 ++ evs2)) =
          effects (run freq start evs1) ++ later /\
          (In e (queue (run freq start (evs1 ++ evs2))) \/
           (In (snd e) (promoted later) /\ In e (erased later)))).
Proof.
  intros freq. split; [| split; [| split; [| split; [| split]]]].
  - intros sth q. split; [| split].
    + intros e. apply new_sth_keeps.
    + destruct (new_sth_cases sth q) as [(had & _ & _ & ->) | ->]; simpl; [lia |].
      clear. induction q as [| [k v] q IH]; simpl; [lia |].
      destruct (tree_size sth <? k); [simpl; lia |].
      destruct (tree_size sth =? k); simpl; lia.
    + apply new_sth_silent.
  - intros l q. apply drain_split.
  - intros evs. apply erase_guarded_positional, run_guarded. constructor.
  - intros c l q. apply STHUpdater_body_split.
  - intros n ev e Hin Hout.
    destruct (step_keeps_or_promotes freq n ev e Hin) as [Hstill | Hgone];
      [contradiction | exact Hgone].
  - intros evs1 evs2 e Hin. rewrite run_app.
    destruct (run_keeps_or_promotes freq evs2 (run freq start evs1))
      as (later & Heff & Hkeep).
    exists later. split; [exact Heff | now apply Hkeep].
Qed.

Lemma removed_only_when_promoted_witness :
  In (9, sample_head 9 30)
     (fst (new_sth (sample_head 7 40) [(5, sample_head 5 20); (9, sample_head 9 30)])) /\
  In (sample_head 5 1)
     (promoted (snd (react 30 (Pass false 7)
                       (queue (run 30 start [Deliver (sample_head 12 3);
                                             Deliver (sample_head 5 1)]))))) /\
  exists later,
    effects (run 30 start ([Deliver (sample_head 9 2); Deliver (sample_head 12 3)]
                           ++ [Pass false 5])) =
    effects (run 30 start [Deliver (sample_head 9 2); Deliver (sample_head 12 3)])
    ++ later /\
    (In (9, sample_head 9 2)
        (queue (run 30 start ([Deliver (sample_head 9 2); Deliver (sample_head 12 3)]
                              ++ [Pass false 5]))) \/
     (In (snd (9, sample_head 9 2)) (promoted later) /\
      In (9, sample_head 9 2) (erased later))).
Proof.
  pose proof (removed_only_when_promoted 30)
    as (Hcallback & _ & _ & _ & Hstep & Hrun).
  split; [| split].
  - apply (proj1 (Hcallback (sample_head 7 40)
                    [(5, sample_head 5 20); (9, sample_head 9 30)])).
    simpl. auto.
  - apply (Hstep (run 30 start [Deliver (sample_head 12 3); Deliver (sample_head 5 1)])
                 (Pass false 7) (5, sample_head 5 1)).
    + simpl. auto.
    + simpl. intros [H | []]. discriminate.
  - apply (Hrun [Deliver (sample_head 9 2); Deliver (sample_head 12 3)]
                [Pass false 5] (9, sample_head 9 2)).
    simpl. auto.
Defined.

(** * Start-up *)

Lemma str_empty_true (s : string) : str_empty s = true <-> s = ""%string.
Proof. destruct s; simpl; split; congruence. Qed.

Lemma bind_continue {A B : Type} (es : list main_effect) (a : A) (k : A -> M B) :
  bind (es, inl a) k = (es ++ fst (k a), snd (k a)).
Proof. unfold bind. now destruct (k a). Qed.

Lemma bind_stopped {A B : Type} (es : list main_effect) (o : outcome) (k : A -> M B) :
  bind (es, inr o) k = (es, inr o).
Proof. reflexivity. Qed.

Lemma parse_and_init_accepted (env : Env) (fl : Flags) :
  registered_validators_accept env fl = true ->
  parse_and_init env fl =
  ([SignalIgnore SIGHUP; SignalIgnore SIGINT; SignalIgnore SIGTERM;
    ParseCommandLineFlags; InitGoogleLogging; InstallFailureSignalHandler;
    ServerStaticInit], inl tt).
Proof. intros H. unfold parse_and_init, when. now rewrite H. Qed.

Lemma parse_and_init_refused (env : Env) (fl : Flags) :
  registered_validators_accept env fl = false ->
  parse_and_init env fl =
  ([SignalIgnore SIGHUP; SignalIgnore SIGINT; SignalIgnore SIGTERM;
    ParseCommandLineFlags], inr (Exited 1)).
Proof. intros H. unfold parse_and_init, when. now rewrite H. Qed.

Lemma main_refused (env : Env) (fl : Flags) :
  registered_validators_accept env fl = false ->
  main env fl =
  ([SignalIgnore SIGHUP; SignalIgnore SIGINT; SignalIgnore SIGTERM;
    ParseCommandLineFlags], Exited 1).
Proof. intros H. unfold main. now rewrite (parse_and_init_refused env fl H). Qed.

(** The sum of lines 264-266 is 1 exactly when one backend is selected. *)
Lemma exactly_one_backend_count (fl : Flags) :
  exactly_one_backend fl = (database_types_given fl =? 1).
Proof.
  unfold exactly_one_backend, database_types_given,
    sqlite_selected, leveldb_selected, file_selected.
  destruct (str_empty (FLAGS_sqlite_db fl)), (str_empty (FLAGS_leveldb_db fl)),
    (str_empty (FLAGS_cert_dir fl)), (str_empty (FLAGS_tree_dir fl)); reflexivity.
Qed.

Lemma check_database_flags_count (fl : Flags) :
  exactly_one_backend fl = false ->
  check_database_flags fl =
  ([Cerr "Must only specify one database type."], inr (Exited 1)).
Proof.
  intros H. unfold check_database_flags, when.
  rewrite <- exactly_one_backend_count, H. reflexivity.
Qed.

Lemma check_database_flags_same_dirs (fl : Flags) :
  exactly_one_backend fl = true ->
  FLAGS_sqlite_db fl = ""%string -> FLAGS_leveldb_db fl = ""%string ->
  FLAGS_cert_dir fl = FLAGS_tree_dir fl ->
  check_database_flags fl =
  ([], inr (CheckFailed "Certificate directory and tree directory must differ")).
Proof.
  intros H Hs Hl Heq. unfold check_database_flags, when, CHECK.
  rewrite <- exactly_one_backend_count, H, Hs, Hl, Heq, String.eqb_refl.
  reflexivity.
Qed.

Lemma check_database_flags_pass (fl : Flags) :
  exactly_one_backend fl = true ->
  (file_selected fl = true -> FLAGS_cert_dir fl <> FLAGS_tree_dir fl) ->
  check_database_flags fl = ([], inl tt).
Proof.
  intros H Hdirs. unfold check_database_flags, when, CHECK.
  rewrite <- exactly_one_backend_count, H. simpl.
  destruct (str_empty (FLAGS_sqlite_db fl)) eqn:Es;
    destruct (str_empty (FLAGS_leveldb_db fl)) eqn:El; simpl; try reflexivity.
  assert (Hfile : file_selected fl = true).
  { revert H. unfold exactly_one_backend, sqlite_selected, leveldb_selected.
    rewrite Es, El. simpl. now destruct (file_selected fl). }
  destruct (String.eqb_spec (FLAGS_cert_dir fl) (FLAGS_tree_dir fl)) as [Heq | Hne];
    [| reflexivity].
  now elim (Hdirs Hfile).
Qed.

Lemma construct_database_one (fl : Flags) :
  exists e, construct_database fl = ([e], inl tt) /\ database_construction e = true /\
            fetch_pipeline e = false /\ (forall h p, e <> NewEtcdClient h p).
Proof.
  unfold construct_database.
  destruct (str_empty (FLAGS_sqlite_db fl)); simpl;
    [destruct (str_empty (FLAGS_leveldb_db fl)); simpl |];
    eexists; (split; [reflexivity |]); repeat split; discriminate.
Qed.

Lemma main_wrong_count (env : Env) (fl : Flags) :
  registered_validators_accept env fl = true ->
  exactly_one_backend fl = false ->
  main env fl =
  ([SignalIgnore SIGHUP; SignalIgnore SIGINT; SignalIgnore SIGTERM;
    ParseCommandLineFlags; InitGoogleLogging; InstallFailureSignalHandler;
    ServerStaticInit; Cerr "Must only specify one database type."], Exited 1).
Proof.
  intros Hv H. unfold main.
  rewrite (parse_and_init_accepted env fl Hv), bind_continue.
  rewrite (check_database_flags_count fl H). reflexivity.
Qed.

(** * Start-up: the claims *)

(** C7: when the storage flags do not select exactly one backend (none, or
    more than one of SQLite, LevelDB and the file store, which counts as
    selected when either of its two directories is given), the process ends
    with exit status 1, having constructed no database and done nothing on
    the network. *)
Theorem backend_selection_enforced :
  forall env fl,
    exactly_one_backend fl = false ->
    snd (main env fl) = Exited 1 /\
    Forall (fun e => network_activity e = false) (fst (main env fl)) /\
    Forall (fun e => database_construction e = false) (fst (main env fl)).
Proof.
  intros env fl H.
  destruct (registered_validators_accept env fl) eqn:Hv.
  - rewrite (main_wrong_count env fl Hv H). simpl.
    repeat split; repeat constructor.
  - rewrite (main_refused env fl Hv). simpl.
    repeat split; repeat constructor.
Qed.

Lemma backend_selection_enforced_witness :
  snd (main permissive_env two_databases_flags) = Exited 1 /\
  snd (main permissive_env default_flags) = Exited 1.
Proof.
  split.
  - apply (backend_selection_enforced permissive_env two_databases_flags).
    reflexivity.
  - apply (backend_selection_enforced permissive_env default_flags).
    reflexivity.
Defined.

Lemma construct_server_stand_alone (fl : Flags) :
  FLAGS_etcd_host fl = ""%string ->
  construct_server fl =
  ([NewEventBase; NewUrlFetcher; NewFakeEtcdClient;
    NewServer (server_options fl); ServerInitialise true;
    LogInfoDefaultConfig default_single_node_config;
    SetClusterConfig default_single_node_config;
    StartElection; WaitToBecomeMaster], inl tt).
Proof. intros H. unfold construct_server. rewrite H. reflexivity. Qed.

(** C8: with the etcd host flag empty, a start-up that passes its flag and
    database checks builds the fake etcd client (never the real one),
    writes the cluster configuration with [minimum_serving_nodes = 1] and
    [minimum_serving_fraction = 1], starts the election and waits to become
    master; no step of the fetch pipeline comes before the end of that
    sequence, and all that follows it is the work of lines 335-379, where
    the fetcher, its peer and the updater thread are set up. *)
Theorem stand_alone_bootstrap_precedes_fetching :
  forall env fl,
    FLAGS_etcd_host fl = ""%string ->
    registered_validators_accept env fl = true ->
    exactly_one_backend fl = true ->
    (file_selected fl = true -> FLAGS_cert_dir fl <> FLAGS_tree_dir fl) ->
    exists pre,
      let bootstrap :=
        [NewFakeEtcdClient; NewServer (server_options fl); ServerInitialise true;
         LogInfoDefaultConfig (mkClusterConfig 1 1);
         SetClusterConfig (mkClusterConfig 1 1);
         StartElection; WaitToBecomeMaster] in
      fst (main env fl) = pre ++ bootstrap ++ fst (start_mirroring env fl) /\
      Forall (fun e => fetch_pipeline e = false) (pre ++ bootstrap) /\
      Forall (fun e => forall h p, e <> NewEtcdClient h p) (pre ++ bootstrap).
Proof.
  intros env fl Hhost Hv Hone Hdirs.
  destruct (construct_database_one fl) as (db & Hdb & _ & Hnf & Hne).
  exists ([SignalIgnore SIGHUP; SignalIgnore SIGINT; SignalIgnore SIGTERM;
           ParseCommandLineFlags; InitGoogleLogging; InstallFailureSignalHandler;
           ServerStaticInit] ++ [db] ++ [NewEventBase; NewUrlFetcher]).
  cbv zeta. split; [| split].
  - unfold main.
    rewrite (parse_and_init_accepted env fl Hv), bind_continue.
    rewrite (check_database_flags_pass fl Hone Hdirs), bind_continue.
    rewrite Hdb, bind_continue.
    rewrite (construct_server_stand_alone fl Hhost), bind_continue.
    destruct (start_mirroring env fl) as [es r]. reflexivity.
  - simpl. repeat constructor. exact Hnf.
  - simpl. repeat constructor; try discriminate. exact Hne.
Qed.

Lemma stand_alone_bootstrap_precedes_fetching_witness :
  exists pre,
    fst (main permissive_env (file_store_flags 9999 "/ct/certs" "/ct/trees")) =
    pre ++ [NewFakeEtcdClient;
            NewServer (mkServerOptions "localhost" 9999 "/root" 16);
            ServerInitialise true;
            LogInfoDefaultConfig (mkClusterConfig 1 1);
            SetClusterConfig (mkClusterConfig 1 1);
            StartElection; WaitToBecomeMaster]
        ++ [ReadPublicKey "/ct/key.pem"; NewThreadPool 16; NewSyncTask;
            NewRemotePeer "http://ct.googleapis.com/pilot";
            NewContinuousFetcher; AddPeer "target"; SpawnSTHUpdater; ServerRun].
Proof.
  destruct (stand_alone_bootstrap_precedes_fetching permissive_env
              (file_store_flags 9999 "/ct/certs" "/ct/trees"))
    as (pre & Htrace & _).
  - reflexivity.
  - reflexivity.
  - reflexivity.
  - intros _. discriminate.
  - exists pre. exact Htrace.
Defined.

(** C9: with neither [sqlite_db] nor [leveldb_db] set, equal certificate
    and tree directories end start-up before any database is constructed:
    by the failed [CHECK_NE] when the flags were accepted and the common
    directory is named, by a non-zero exit otherwise.  Start-up constructs
    a database only when the two differ, and then it is the file store
    over the two directories. *)
Theorem equal_directories_abort :
  forall env fl,
    FLAGS_sqlite_db fl = ""%string ->
    FLAGS_leveldb_db fl = ""%string ->
    (FLAGS_cert_dir fl = FLAGS_tree_dir fl ->
     terminated_abnormally (snd (main env fl)) = true /\
     Forall (fun e => database_construction e = false) (fst (main env fl)) /\
     (registered_validators_accept env fl = true ->
      FLAGS_cert_dir fl <> ""%string ->
      snd (main env fl) =
      CheckFailed "Certificate directory and tree directory must differ")) /\
    (Exists (fun e => database_construction e = true) (fst (main env fl)) ->
     FLAGS_cert_dir fl <> FLAGS_tree_dir fl) /\
    (registered_validators_accept env fl = true ->
     FLAGS_cert_dir fl <> FLAGS_tree_dir fl ->
     In (NewFileDB (FLAGS_cert_dir fl) (FLAGS_cert_storage_depth fl)
                   (FLAGS_tree_dir fl) (FLAGS_tree_storage_depth fl)
                   (FLAGS_meta_dir fl))
        (fst (main env fl))).
Proof.
  intros env fl Hs Hl.
  assert (Hsame : FLAGS_cert_dir fl = FLAGS_tree_dir fl ->
            terminated_abnormally (snd (main env fl)) = true /\
            Forall (fun e => database_construction e = false) (fst (main env fl)) /\
            (registered_validators_accept env fl = true ->
             FLAGS_cert_dir fl <> ""%string ->
             snd (main env fl) =
             CheckFailed "Certificate directory and tree directory must differ")).
  { intros Heq.
    destruct (registered_validators_accept env fl) eqn:Hv.
    2: { rewrite (main_refused env fl Hv). simpl.
         repeat split; [repeat constructor | discriminate]. }
    destruct (exactly_one_backend fl) eqn:Hone.
    - unfold main. rewrite (parse_and_init_accepted env fl Hv), bind_continue.
      rewrite (check_database_flags_same_dirs fl Hone Hs Hl Heq). simpl.
      repeat split; repeat constructor.
    - rewrite (main_wrong_count env fl Hv Hone). simpl.
      repeat split; [repeat constructor |].
      intros _ Hne. exfalso. apply Hne.
      revert Hone. unfold exactly_one_backend, sqlite_selected, leveldb_selected,
        file_selected. rewrite Hs, Hl, <- Heq. simpl.
      destruct (FLAGS_cert_dir fl); [reflexivity | discriminate]. }
  split; [exact Hsame |]. split.
  - intros Hex Heq. destruct (Hsame Heq) as (_ & Hall & _).
    apply Exists_exists in Hex. destruct Hex as (e & He & Hdb).
    rewrite Forall_forall in Hall. specialize (Hall e He). congruence.
  - intros Hv Hne.
    assert (Hone : exactly_one_backend fl = true).
    { unfold exactly_one_backend, sqlite_selected, leveldb_selected, file_selected.
      rewrite Hs, Hl. simpl.
      destruct (FLAGS_cert_dir fl), (FLAGS_tree_dir fl); simpl; congruence. }
    unfold main. rewrite (parse_and_init_accepted env fl Hv), bind_continue.
    rewrite (check_database_flags_pass fl Hone (fun _ => Hne)), bind_continue.
    unfold construct_database. rewrite Hs, Hl. simpl.
    destruct (construct_server fl) as [es [[] | o]]; simpl.
    + destruct (start_mirroring env fl) as [es' r']. simpl. auto 10.
    + auto 10.
Qed.

Lemma equal_directories_abort_witness :
  snd (main permissive_env (file_store_flags 9999 "/ct/store" "/ct/store")) =
  CheckFailed "Certificate directory and tree directory must differ" /\
  In (NewFileDB "/ct/certs" 0 "/ct/trees" 0 "/ct/meta")
     (fst (main permissive_env (file_store_flags 9999 "/ct/certs" "/ct/trees"))).
Proof.
  split.
  - apply (proj1 (equal_directories_abort permissive_env
                    (file_store_flags 9999 "/ct/store" "/ct/store")
                    eq_refl eq_refl)).
    + reflexivity.
    + reflexivity.
    + discriminate.
  - apply (proj2 (proj2 (equal_directories_abort permissive_env
                           (file_store_flags 9999 "/ct/certs" "/ct/trees")
                           eq_refl eq_refl))).
    + reflexivity.
    + discriminate.
Defined.

(** C10: [ValidatePort] accepts a port exactly when it lies between 1 and
    65535; with any other value of the port flag, flag parsing ends the
    process with status 1 before anything else of start-up has run. *)
Theorem port_accepted_iff_in_range :
  (forall flagname port,
      ValidatePort flagname port = true <-> 1 <= port <= 65535) /\
  (forall env fl,
      ~ (1 <= FLAGS_port fl <= 65535) ->
      main env fl =
      ([SignalIgnore SIGHUP; SignalIgnore SIGINT; SignalIgnore SIGTERM;
        ParseCommandLineFlags], Exited 1)).
Proof.
  assert (Hiff : forall flagname port,
             ValidatePort flagname port = true <-> 1 <= port <= 65535).
  { intros flagname port. unfold ValidatePort.
    destruct (Z.leb_spec port 0), (Z.gtb_spec port 65535); simpl;
      split; intros; try discriminate; try lia; reflexivity. }
  split; [exact Hiff |].
  intros env fl Hout. apply main_refused.
  unfold registered_validators_accept.
  destruct (ValidatePort "port" (FLAGS_port fl)) eqn:Hp; [| reflexivity].
  apply Hiff in Hp. contradiction.
Qed.

Lemma port_accepted_iff_in_range_witness :
  ValidatePort "port" 65535 = true /\
  main permissive_env (file_store_flags 65536 "/ct/certs" "/ct/trees") =
  ([SignalIgnore SIGHUP; SignalIgnore SIGINT; SignalIgnore SIGTERM;
    ParseCommandLineFlags], Exited 1).
Proof.
  split.
  - apply (proj1 port_accepted_iff_in_range "port"%string 65535). lia.
  - apply (proj2 port_accepted_iff_in_range permissive_env
             (file_store_flags 65536 "/ct/certs" "/ct/trees")).
    simpl. lia.
Defined.

(** * More on the queue and the reconciliation loop *)

Lemma find_insert_other (k k' : Z) (v : SignedTreeHead) (m : StdMap.t) :
  k <> k' -> StdMap.find k (StdMap.insert k' v m) = StdMap.find k m.
Proof.
  intros Hne. induction m as [| [k1 v1] m IH]; simpl.
  - destruct (Z.eqb_spec k k'); [contradiction | reflexivity].
  - destruct (k' <? k1); [| destruct (k' =? k1)]; simpl.
    + destruct (Z.eqb_spec k k'); [contradiction | reflexivity].
    + reflexivity.
    + now rewrite IH.
Qed.

Lemma find_insert_same (k : Z) (v : SignedTreeHead) (m : StdMap.t) :
  StdMap.find k (StdMap.insert k v m) <> None.
Proof.
  induction m as [| [k1 v1] m IH]; simpl.
  - now rewrite Z.eqb_refl.
  - destruct (k <? k1); [| destruct (Z.eqb_spec k k1) as [-> | Hne]]; simpl.
    + now rewrite Z.eqb_refl.
    + now rewrite Z.eqb_refl.
    + destruct (Z.eqb_spec k k1); [contradiction | exact IH].
Qed.

Lemma length_insert_absent (k : Z) (v : SignedTreeHead) (m : StdMap.t) :
  StdMap.find k m = None ->
  List.length (StdMap.insert k v m) = S (List.length m).
Proof.
  induction m as [| [k1 v1] m IH]; simpl; [reflexivity |].
  destruct (Z.eqb_spec k k1) as [-> | Hne]; [discriminate |].
  intros Hf. destruct (k <? k1); simpl; [reflexivity |]. now rewrite IH.
Qed.

(** X1: looking up the queue after a delivery.  The delivered tree size is
    always present afterwards; when it was absent before, it is the
    delivered head that is stored, the queue has grown by one entry and
    nothing is logged; the entry of every other tree size is as it was. *)
Theorem new_sth_lookup :
  forall sth q,
    StdMap.find (tree_size sth) (fst (new_sth sth q)) <> None /\
    (StdMap.find (tree_size sth) q = None ->
     new_sth sth q = (StdMap.insert (tree_size sth) sth q, []) /\
     StdMap.find (tree_size sth) (fst (new_sth sth q)) = Some sth /\
     List.length (fst (new_sth sth q)) = S (List.length q)) /\
    (forall k, k <> tree_size sth ->
               StdMap.find k (fst (new_sth sth q)) = StdMap.find k q).
Proof.
  intros sth q. split; [| split].
  - destruct (new_sth_cases sth q) as [(had & Hf & _ & ->) | ->]; simpl.
    + rewrite Hf. discriminate.
    + apply find_insert_same.
  - intros Hnone.
    destruct (new_sth_cases sth q) as [(had & Hf & _) | ->]; [congruence |].
    simpl. repeat split.
    + now apply StdMapFacts.find_insert_absent.
    + now apply length_insert_absent.
  - intros k Hne.
    destruct (new_sth_cases sth q) as [(had & _ & _ & ->) | ->]; simpl;
      [reflexivity | now apply find_insert_other].
Qed.

Lemma new_sth_lookup_witness :
  StdMap.find 7 (fst (new_sth (sample_head 7 40)
                        [(5, sample_head 5 20); (9, sample_head 9 30)]))
  = Some (sample_head 7 40) /\
  StdMap.find 9 (fst (new_sth (sample_head 7 40)
                        [(5, sample_head 5 20); (9, sample_head 9 30)]))
  = Some (sample_head 9 30).
Proof.
  pose proof (new_sth_lookup (sample_head 7 40)
                [(5, sample_head 5 20); (9, sample_head 9 30)]) as (_ & Habs & Hoth).
  split.
  - apply Habs. reflexivity.
  - rewrite (Hoth 9); [reflexivity | simpl; lia].
Defined.

(** Where the drain stops: the queue it leaves is empty or starts with a
    head larger than the local tree size. *)
Lemma drain_stops (l : Z) (q : StdMap.t) :
  match fst (drain l q) with
  | [] => True
  | (_, h) :: _ => l < tree_size h
  end.
Proof.
  induction q as [| [k h] q IH]; simpl; [exact I |].
  destruct (Z.leb_spec (tree_size h) l) as [Hle | Hgt]; simpl; [| exact Hgt].
  now destruct (drain l q).
Qed.

Lemma drain_rest_above (l : Z) (q : StdMap.t) :
  queue_ok q -> Forall (fun e => l < tree_size (snd e)) (fst (drain l q)).
Proof.
  intros Hq. destruct (drain_ordered l q Hq) as ([Hord Hfiled] & _).
  pose proof (drain_stops l q) as Hstop.
  destruct (fst (drain l q)) as [| [k h] rest]; [constructor |].
  unfold filed_by_size in Hfiled. rewrite Forall_forall in Hfiled.
  pose proof (Hfiled (k, h) (or_introl eq_refl)) as Hk. simpl in Hk.
  apply StdMapFacts.ordered_head_lt in Hord. rewrite Forall_forall in Hord.
  constructor; [exact Hstop |].
  apply Forall_forall. intros e He.
  specialize (Hord (fst e) (in_map fst _ _ He)).
  rewrite <- (Hfiled e (or_intror He)). lia.
Qed.

(** X2: a pass leaves nothing behind that it could have promoted.  After a
    pass that read local tree size [l], every head still queued is larger
    than [l], and every head that was queued with a size up to [l] has been
    handed to [NewTreeHead]. *)
Theorem pass_promotes_all_reached :
  forall freq evs c l,
    let q := queue (run freq start evs) in
    Forall (fun e => l < tree_size (snd e)) (fst (STHUpdater_body freq c l q)) /\
    (forall k h, In (k, h) q -> tree_size h <= l ->
                 In h (promoted (snd (STHUpdater_body freq c l q)))).
Proof.
  intros freq evs c l q.
  assert (Hq : queue_ok q) by (apply run_queue_ok, start_queue_ok).
  rewrite STHUpdater_body_promoted, STHUpdater_body_eq. simpl.
  pose proof (drain_rest_above l q Hq) as Hrest.
  split; [exact Hrest |].
  intros k h Hin Hle.
  destruct (drain_split l q) as [Hsplit Hprom].
  rewrite Hprom. rewrite Hsplit in Hin. apply in_app_or in Hin.
  destruct Hin as [Hgone | Hleft].
  - apply (in_map snd) in Hgone. exact Hgone.
  - rewrite Forall_forall in Hrest. specialize (Hrest (k, h) Hleft).
    simpl in Hrest. lia.
Qed.

Lemma pass_promotes_all_reached_witness :
  In (sample_head 8 2)
     (promoted (snd (STHUpdater_body 30 false 10
        (queue (run 30 start [Deliver (sample_head 12 3); Deliver (sample_head 8 2);
                              Deliver (sample_head 5 1)]))))).
Proof.
  apply (proj2 (pass_promotes_all_reached 30
                  [Deliver (sample_head 12 3); Deliver (sample_head 8 2);
                   Deliver (sample_head 5 1)] false 10) 8 (sample_head 8 2)).
  - simpl. auto.
  - simpl. lia.
Defined.

Lemma drain_nothing (l : Z) (q : StdMap.t) :
  match q with
  | [] => True
  | (_, h) :: _ => l < tree_size h
  end -> drain l q = (q, []).
Proof.
  destruct q as [| [k h] q]; simpl; [reflexivity |].
  intros Hgt. destruct (Z.leb_spec (tree_size h) l); [lia | reflexivity].
Qed.

Lemma drain_twice (l1 l2 : Z) (q : StdMap.t) :
  l1 <= l2 ->
  fst (drain l2 (fst (drain l1 q))) = fst (drain l2 q) /\
  snd (drain l1 q) ++ snd (drain l2 (fst (drain l1 q))) = snd (drain l2 q).
Proof.
  intros Hle. induction q as [| [k h] q [IHq IHe]]; simpl; [auto |].
  destruct (Z.leb_spec (tree_size h) l1) as [H1 | H1].
  - destruct (Z.leb_spec (tree_size h) l2) as [H2 | H2]; [| lia].
    destruct (drain l1 q) as [q1 es1]. destruct (drain l2 q) as [q2 es2].
    simpl in *. split; [exact IHq | now rewrite IHe].
  - simpl. split; reflexivity.
Qed.

Lemma pass_queue (freq : Z) (n : node) (c : bool) (l : Z) :
  queue (step freq n (Pass c l)) = fst (drain l (queue n)).
Proof. rewrite step_eq. simpl. now rewrite STHUpdater_body_eq. Qed.

Lemma pass_promoted (freq : Z) (n : node) (c : bool) (l : Z) :
  promoted (effects (step freq n (Pass c l))) =
  promoted (effects n) ++ promoted (snd (drain l (queue n))).
Proof.
  rewrite step_eq. simpl. now rewrite promoted_app, STHUpdater_body_promoted.
Qed.

(** X3: passes compose.  From any queue, a pass that read tree size [l1]
    followed (with no delivery in between) by a pass that read [l2 >= l1]
    leaves the queue and promotes the heads, in the same order, that one
    pass reading [l2] does; and a second pass that reads no larger a size
    than the first promotes nothing and leaves the queue alone. *)
Theorem passes_compose :
  forall freq n c1 c2 c l1 l2,
    (l1 <= l2 ->
     queue (run freq n [Pass c1 l1; Pass c2 l2]) = queue (run freq n [Pass c l2]) /\
     promoted (effects (run freq n [Pass c1 l1; Pass c2 l2])) =
     promoted (effects (run freq n [Pass c l2]))) /\
    (l2 <= l1 ->
     queue (run freq n [Pass c1 l1; Pass c2 l2]) = queue (run freq n [Pass c1 l1]) /\
     promoted (effects (run freq n [Pass c1 l1; Pass c2 l2])) =
     promoted (effects (run freq n [Pass c1 l1]))).
Proof.
  intros freq n c1 c2 c l1 l2.
  change (run freq n [Pass c1 l1; Pass c2 l2])
    with (step freq (step freq n (Pass c1 l1)) (Pass c2 l2)).
  change (run freq n [Pass c l2]) with (step freq n (Pass c l2)).
  change (run freq n [Pass c1 l1]) with (step freq n (Pass c1 l1)).
  rewrite !pass_queue, !pass_promoted, !pass_queue. split.
  - intros Hle. destruct (drain_twice l1 l2 (queue n) Hle) as [Hq He].
    split; [exact Hq |].
    rewrite <- app_assoc. f_equal. rewrite <- promoted_app. now rewrite He.
  - intros Hle.
    assert (Hnone : drain l2 (fst (drain l1 (queue n))) = (fst (drain l1 (queue n)), [])).
    { apply drain_nothing. pose proof (drain_stops l1 (queue n)) as Hs.
      destruct (fst (drain l1 (queue n))) as [| [k h] rest]; [exact I | lia]. }
    rewrite Hnone. simpl. now rewrite app_nil_r.
Qed.

Lemma passes_compose_witness :
  promoted (effects (run 30 (mkNode [(5, sample_head 5 1); (8, sample_head 8 2);
                                     (12, sample_head 12 3)] [])
                         [Pass false 6; Pass false 9])) =
  [sample_head 5 1; sample_head 8 2] /\
  queue (run 30 (mkNode [(5, sample_head 5 1); (8, sample_head 8 2);
                         (12, sample_head 12 3)] [])
             [Pass false 9; Pass true 9]) = [(12, sample_head 12 3)].
Proof.
  split.
  - rewrite (proj2 (proj1 (passes_compose 30
               (mkNode [(5, sample_head 5 1); (8, sample_head 8 2);
                        (12, sample_head 12 3)] [])
               false false false 6 9) ltac:(lia))).
    reflexivity.
  - rewrite (proj1 (proj2 (passes_compose 30
               (mkNode [(5, sample_head 5 1); (8, sample_head 8 2);
                        (12, sample_head 12 3)] [])
               false true false 9 9) ltac:(lia))).
    reflexivity.
Defined.

Lemma drain_promotes_reached (l : Z) (q : StdMap.t) (k : Z) (h : SignedTreeHead) :
  queue_ok q -> In (k, h) q -> tree_size h <= l ->
  In h (promoted (snd (drain l q))).
Proof.
  intros Hq Hin Hle.
  destruct (drain_split l q) as [Hsplit Hprom].
  rewrite Hprom. rewrite Hsplit in Hin. apply in_app_or in Hin.
  destruct Hin as [Hgone | Hleft].
  - apply (in_map snd) in Hgone. exact Hgone.
  - pose proof (drain_rest_above l q Hq) as Hrest.
    rewrite Forall_forall in Hrest. specialize (Hrest (k, h) Hleft).
    simpl in Hrest. lia.
Qed.

Lemma drain_takes_from_queue (l : Z) (q : StdMap.t) :
  (forall e, In e (fst (drain l q)) -> In e q) /\
  (forall h, In h (promoted (snd (drain l q))) -> exists k, In (k, h) q).
Proof.
  destruct (drain_split l q) as [Hsplit Hprom]. split.
  - intros e He. rewrite Hsplit. apply in_or_app. now right.
  - intros h Hh. rewrite Hprom in Hh. apply in_map_iff in Hh.
    destruct Hh as ([k h'] & <- & Hin). exists k.
    rewrite Hsplit. apply in_or_app. now left.
Qed.

Lemma run_from_delivered (freq : Z) (evs : list event) (n : node)
    (known : list SignedTreeHead) :
  (forall e, In e (queue n) -> In (snd e) known) ->
  (forall h, In h (promoted (effects n)) -> In h known) ->
  (forall e, In e (queue (run freq n evs)) -> In (snd e) (known ++ delivered evs)) /\
  (forall h, In h (promoted (effects (run freq n evs))) ->
             In h (known ++ delivered evs)).
Proof.
  revert n known. induction evs as [| ev evs IH]; intros n known Hq Hp.
  - simpl. rewrite app_nil_r. auto.
  - change (run freq n (ev :: evs)) with (run freq (step freq n ev) evs).
    destruct ev as [sth | c l].
    + change (delivered (Deliver sth :: evs)) with ([sth] ++ delivered evs).
      rewrite app_assoc. apply IH.
      * rewrite step_eq. simpl. intros e He. apply new_sth_adds_only in He.
        apply in_or_app. destruct He as [-> | He]; [right; now left | left; auto].
      * rewrite step_eq. simpl. intros h Hh. rewrite promoted_app in Hh.
        destruct (new_sth_silent sth (queue n)) as (Hnone & _).
        rewrite Hnone, app_nil_r in Hh. apply in_or_app. left. auto.
    + change (delivered (Pass c l :: evs)) with (delivered evs).
      destruct (drain_takes_from_queue l (queue n)) as [Hrest Hfrom].
      apply IH.
      * rewrite pass_queue. intros e He. auto.
      * rewrite pass_promoted. intros h Hh. apply in_app_or in Hh.
        destruct Hh as [Hh | Hh]; [auto |].
        destruct (Hfrom h Hh) as (k & Hk). apply (Hq (k, h) Hk).
Qed.

(** X4: the node makes up no head.  In every run, each head handed to
    [NewTreeHead] and each head waiting in the queue is one that was
    delivered to the callback earlier in the run. *)
Theorem only_delivered_heads_promoted :
  forall freq evs,
    (forall h, In h (promoted (effects (run freq start evs))) ->
               In h (delivered evs)) /\
    (forall k h, In (k, h) (queue (run freq start evs)) ->
                 In h (delivered evs)).
Proof.
  intros freq evs.
  destruct (run_from_delivered freq evs start [])
    as [Hq Hp]; [intros e [] | intros h [] |].
  split; [exact Hp |].
  intros k h Hin. apply (Hq (k, h) Hin).
Qed.

Lemma only_delivered_heads_promoted_witness :
  In (sample_head 8 2) (delivered heads_in_order).
Proof.
  apply (proj1 (only_delivered_heads_promoted 30 heads_in_order)).
  simpl. auto.
Defined.

(** X5: from delivery to promotion.  A head whose tree size is not yet
    queued is handed to [NewTreeHead] by the next pass when that pass reads
    a local tree size that has reached the head's size; when the local
    size is still smaller the head is not promoted and waits in the queue
    under its size. *)
Theorem delivered_head_promoted_when_reached :
  forall freq evs sth c l,
    let n := run freq start evs in
    let after := STHUpdater_body freq c l (fst (new_sth sth (queue n))) in
    StdMap.find (tree_size sth) (queue n) = None ->
    (tree_size sth <= l -> In sth (promoted (snd after))) /\
    (l < tree_size sth ->
     ~ In sth (promoted (snd after)) /\ In (tree_size sth, sth) (fst after)).
Proof.
  intros freq evs sth c l n after Hnone. subst after.
  assert (Hq : queue_ok (queue n)) by (apply run_queue_ok, start_queue_ok).
  assert (Hq1 : queue_ok (fst (new_sth sth (queue n)))) by now apply new_sth_queue_ok.
  assert (Hin : In (tree_size sth, sth) (fst (new_sth sth (queue n)))).
  { apply StdMapFacts.find_some.
    destruct (new_sth_cases sth (queue n)) as [(had & Hf & _) | ->]; [congruence |].
    simpl. now apply StdMapFacts.find_insert_absent. }
  rewrite STHUpdater_body_promoted, STHUpdater_body_eq. simpl.
  set (q1 := fst (new_sth sth (queue n))) in *.
  split.
  - intros Hle. now apply (drain_promotes_reached l q1 (tree_size sth) sth).
  - intros Hlt.
    destruct (drain_within l q1) as [Hle _]. rewrite Forall_forall in Hle.
    assert (Hnot : ~ In sth (promoted (snd (drain l q1)))).
    { intros Hp. specialize (Hle sth Hp). simpl in Hle. lia. }
    split; [exact Hnot |].
    destruct (drain_split l q1) as [Hsplit Hprom].
    rewrite Hsplit in Hin. apply in_app_or in Hin.
    destruct Hin as [Hgone | Hleft]; [| exact Hleft].
    exfalso. apply Hnot. rewrite Hprom.
    apply (in_map snd) in Hgone. exact Hgone.
Qed.

Lemma delivered_head_promoted_when_reached_witness :
  In (sample_head 8 2)
     (promoted (snd (STHUpdater_body 30 false 9
        (fst (new_sth (sample_head 8 2)
                (queue (run 30 start [Deliver (sample_head 12 3)]))))))) /\
  In (8, sample_head 8 2)
     (fst (STHUpdater_body 30 false 7
        (fst (new_sth (sample_head 8 2)
                (queue (run 30 start [Deliver (sample_head 12 3)])))))).
Proof.
  split.
  - apply (proj1 (delivered_head_promoted_when_reached 30
                    [Deliver (sample_head 12 3)] (sample_head 8 2) false 9
                    eq_refl)).
    simpl. lia.
  - apply (proj2 (proj2 (delivered_head_promoted_when_reached 30
                    [Deliver (sample_head 12 3)] (sample_head 8 2) false 7
                    eq_refl) ltac:(simpl; lia))).
Defined.

Lemma new_sth_fst (sth : SignedTreeHead) (q : StdMap.t) :
  fst (new_sth sth q) =
  if older_than_stored sth (StdMap.find (tree_size sth) q) then q
  else StdMap.insert (tree_size sth) sth q.
Proof.
  unfold new_sth.
  destruct (older_than_stored sth (StdMap.find (tree_size sth) q)); [| reflexivity].
  now destruct (StdMap.find (tree_size sth) q).
Qed.

Lemma insert_insert (k1 k2 : Z) (v1 v2 : SignedTreeHead) (m : StdMap.t) :
  k1 <> k2 ->
  StdMap.insert k1 v1 (StdMap.insert k2 v2 m) =
  StdMap.insert k2 v2 (StdMap.insert k1 v1 m).
Proof.
  intros Hne. induction m as [| [k v] m IH]; simpl.
  - destruct (Z.ltb_spec k1 k2), (Z.ltb_spec k2 k1),
      (Z.eqb_spec k1 k2), (Z.eqb_spec k2 k1); try lia; reflexivity.
  - destruct (Z.ltb_spec k2 k), (Z.ltb_spec k1 k),
      (Z.eqb_spec k2 k), (Z.eqb_spec k1 k); simpl;
      repeat match goal with
             | |- context [?a <? ?b] => destruct (Z.ltb_spec a b); try lia
             | |- context [?a =? ?b] => destruct (Z.eqb_spec a b); try lia
             end;
      try reflexivity; try lia.
    now rewrite IH.
Qed.

(** X13: heads of different tree sizes do not interfere.  Whatever the
    queue, delivering two heads of different sizes leaves the same queue in
    either order of delivery. *)
Theorem deliveries_of_different_sizes_commute :
  forall a b q,
    tree_size a <> tree_size b ->
    fst (new_sth a (fst (new_sth b q))) = fst (new_sth b (fst (new_sth a q))).
Proof.
  intros a b q Hne.
  rewrite (new_sth_fst a (fst (new_sth b q))), (new_sth_fst b (fst (new_sth a q))).
  rewrite (new_sth_fst b q), (new_sth_fst a q).
  assert (Ha : forall q', StdMap.find (tree_size a)
                            (if older_than_stored b (StdMap.find (tree_size b) q')
                             then q' else StdMap.insert (tree_size b) b q')
                          = StdMap.find (tree_size a) q').
  { intros q'. destruct (older_than_stored b (StdMap.find (tree_size b) q'));
      [reflexivity | now apply find_insert_other]. }
  assert (Hb : forall q', StdMap.find (tree_size b)
                            (if older_than_stored a (StdMap.find (tree_size a) q')
                             then q' else StdMap.insert (tree_size a) a q')
                          = StdMap.find (tree_size b) q').
  { intros q'. destruct (older_than_stored a (StdMap.find (tree_size a) q'));
      [reflexivity | apply find_insert_other; congruence]. }
  rewrite Ha, Hb.
  destruct (older_than_stored a (StdMap.find (tree_size a) q)),
    (older_than_stored b (StdMap.find (tree_size b) q)); try reflexivity.
  now apply insert_insert.
Qed.

Lemma deliveries_of_different_sizes_commute_witness :
  fst (new_sth (sample_head 12 3) (fst (new_sth (sample_head 8 2) [(9, sample_head 9 30)])))
  = [(8, sample_head 8 2); (9, sample_head 9 30); (12, sample_head 12 3)].
Proof.
  rewrite (deliveries_of_different_sizes_commute (sample_head 12 3) (sample_head 8 2)
             [(9, sample_head 9 30)]).
  - reflexivity.
  - simpl. lia.
Defined.

(** X14: delivering a head again changes nothing in the queue.  In every
    queue a node can reach, a second delivery of the same head, directly
    after the first, leaves the queue as the first delivery left it. *)
Theorem redelivery_leaves_queue :
  forall freq evs sth,
    let q := queue (run freq start evs) in
    fst (new_sth sth (fst (new_sth sth q))) = fst (new_sth sth q).
Proof.
  intros freq evs sth q.
  assert (Hq : queue_ok q) by (apply run_queue_ok, start_queue_ok).
  pose proof (new_sth_queue_ok sth q Hq) as [Hord _].
  destruct (StdMap.find (tree_size sth) (fst (new_sth sth q))) as [had |] eqn:Hf.
  - now apply (new_sth_never_replaces sth had).
  - exfalso. revert Hf. rewrite new_sth_fst.
    destruct (StdMap.find (tree_size sth) q) as [had |] eqn:Hq0; simpl.
    + destruct (timestamp sth <? timestamp had); [congruence |].
      apply find_insert_same.
    + apply find_insert_same.
Qed.

(** * More on start-up *)

Lemma str_empty_false (s : string) : str_empty s = false <-> s <> ""%string.
Proof. destruct s; simpl; split; congruence. Qed.

Lemma flag_checks_pass_dec (env : Env) (fl : Flags) :
  flag_checks_pass env fl \/
  registered_validators_accept env fl = false \/
  (registered_validators_accept env fl = true /\ exactly_one_backend fl = false) \/
  (registered_validators_accept env fl = true /\ exactly_one_backend fl = true /\
   FLAGS_sqlite_db fl = ""%string /\ FLAGS_leveldb_db fl = ""%string /\
   FLAGS_cert_dir fl = FLAGS_tree_dir fl).
Proof.
  unfold flag_checks_pass.
  destruct (registered_validators_accept env fl); [| auto].
  destruct (exactly_one_backend fl) eqn:Hone; [| auto 6].
  destruct (file_selected fl) eqn:Hfile.
  2: { left. repeat split. discriminate. }
  destruct (String.eqb_spec (FLAGS_cert_dir fl) (FLAGS_tree_dir fl)) as [Heq | Hne].
  2: { left. repeat split. auto. }
  right. right. right. repeat split; [| | exact Heq].
  - apply str_empty_true. revert Hone.
    unfold exactly_one_backend, sqlite_selected. rewrite Hfile.
    destruct (str_empty (FLAGS_sqlite_db fl)); simpl; [reflexivity |].
    now destruct (leveldb_selected fl).
  - apply str_empty_true. revert Hone.
    unfold exactly_one_backend, leveldb_selected. rewrite Hfile.
    destruct (str_empty (FLAGS_leveldb_db fl)); simpl; [reflexivity |].
    now destruct (sqlite_selected fl).
Qed.

(** When a flag test fails, start-up ends abnormally having built no
    database and touched no network. *)
Lemma main_unchecked (env : Env) (fl : Flags) :
  ~ flag_checks_pass env fl ->
  terminated_abnormally (snd (main env fl)) = true /\
  Forall (fun e => network_activity e = false) (fst (main env fl)) /\
  Forall (fun e => database_construction e = false) (fst (main env fl)) /\
  Forall (fun e => fetch_pipeline e = false) (fst (main env fl)).
Proof.
  intros Hnot.
  destruct (flag_checks_pass_dec env fl)
    as [Hpass | [Hv | [[Hv Hone] | (Hv & Hone & Hs & Hl & Heq)]]].
  - contradiction.
  - rewrite (main_refused env fl Hv). simpl. repeat split; repeat constructor.
  - rewrite (main_wrong_count env fl Hv Hone). simpl.
    repeat split; repeat constructor.
  - unfold main. rewrite (parse_and_init_accepted env fl Hv), bind_continue.
    rewrite (check_database_flags_same_dirs fl Hone Hs Hl Heq). simpl.
    repeat split; repeat constructor.
Qed.

(** When they pass, the database is constructed and the rest of start-up
    is lines 289-379. *)
Lemma main_checked (env : Env) (fl : Flags) :
  flag_checks_pass env fl ->
  main env fl =
  (preamble ++ fst (construct_database fl) ++
     fst (bind (construct_server fl) (fun _ => start_mirroring env fl)),
   match snd (bind (construct_server fl) (fun _ => start_mirroring env fl)) with
   | inl _ => Serving
   | inr o => o
   end).
Proof.
  intros (Hv & Hone & Hdirs).
  destruct (construct_database_one fl) as (db & Hdb & _).
  unfold main.
  rewrite (parse_and_init_accepted env fl Hv), bind_continue.
  rewrite (check_database_flags_pass fl Hone Hdirs), bind_continue.
  rewrite Hdb, bind_continue. simpl.
  destruct (bind (construct_server fl) (fun _ => start_mirroring env fl)) as [es r].
  reflexivity.
Qed.

(** The outcome of lines 289-379, by the five tests made there. *)
Lemma server_and_mirroring_outcome (env : Env) (fl : Flags) :
  snd (bind (construct_server fl) (fun _ => start_mirroring env fl)) =
  if negb (str_empty (FLAGS_etcd_host fl)) && str_empty (FLAGS_server fl)
  then inr (CheckFailed "!FLAGS_server.empty()")
  else if str_empty (FLAGS_target_public_key fl)
  then inr (CheckFailed "!FLAGS_target_public_key.empty()")
  else if str_empty (FLAGS_target_log_uri fl)
  then inr (CheckFailed "!FLAGS_target_log_uri.empty()")
  else if negb (ReadPublicKey_ok env (FLAGS_target_public_key fl))
  then inr (CheckFailed "pubkey.ok()")
  else inl tt.
Proof.
  unfold construct_server, start_mirroring, CHECK.
  destruct (str_empty (FLAGS_etcd_host fl)), (str_empty (FLAGS_server fl)),
    (str_empty (FLAGS_target_public_key fl)), (str_empty (FLAGS_target_log_uri fl)),
    (ReadPublicKey_ok env (FLAGS_target_public_key fl)); reflexivity.
Qed.

(** The shape of lines 289-379: a stretch that neither constructs a
    database, nor belongs to the fetch pipeline, nor runs the server,
    followed, when none of the five tests fails, by the seven steps that
    set up fetching and run the server. *)
Lemma server_and_mirroring_cases (env : Env) (fl : Flags) :
  exists mid,
    Forall (fun e => fetch_pipeline e = false /\ database_construction e = false /\
                     e <> ServerRun) mid /\
    ((snd (bind (construct_server fl) (fun _ => start_mirroring env fl)) = inl tt /\
      fst (bind (construct_server fl) (fun _ => start_mirroring env fl)) =
      mid ++ [NewThreadPool 16; NewSyncTask;
              NewRemotePeer (FLAGS_target_log_uri fl); NewContinuousFetcher;
              AddPeer "target"; SpawnSTHUpdater; ServerRun]) \/
     (exists what,
        snd (bind (construct_server fl) (fun _ => start_mirroring env fl)) =
        inr (CheckFailed what) /\
        fst (bind (construct_server fl) (fun _ => start_mirroring env fl)) = mid)).
Proof.
  unfold construct_server, start_mirroring, CHECK.
  destruct (str_empty (FLAGS_etcd_host fl)), (str_empty (FLAGS_server fl)),
    (str_empty (FLAGS_target_public_key fl)), (str_empty (FLAGS_target_log_uri fl)),
    (ReadPublicKey_ok env (FLAGS_target_public_key fl)); simpl.
  all: first
    [ eexists; split;
      [| right; eexists; split; reflexivity];
      repeat constructor; discriminate
    | match goal with
      | |- exists mid, _ /\ ((_ /\ ?l = _) \/ _) =>
          exists (firstn (List.length l - 7) l); split;
          [simpl; repeat constructor; discriminate
          | left; split; reflexivity]
      end ].
Qed.

(** Which database lines 276-287 construct. *)
Lemma construct_database_cases (fl : Flags) :
  (FLAGS_sqlite_db fl <> ""%string /\
   construct_database fl = ([NewSQLiteDB (FLAGS_sqlite_db fl)], inl tt)) \/
  (FLAGS_sqlite_db fl = ""%string /\ FLAGS_leveldb_db fl <> ""%string /\
   construct_database fl = ([NewLevelDB (FLAGS_leveldb_db fl)], inl tt)) \/
  (FLAGS_sqlite_db fl = ""%string /\ FLAGS_leveldb_db fl = ""%string /\
   construct_database fl =
   ([NewFileDB (FLAGS_cert_dir fl) (FLAGS_cert_storage_depth fl)
               (FLAGS_tree_dir fl) (FLAGS_tree_storage_depth fl)
               (FLAGS_meta_dir fl)], inl tt)).
Proof.
  unfold construct_database.
  destruct (str_empty (FLAGS_sqlite_db fl)) eqn:Hs; simpl.
  - apply str_empty_true in Hs.
    destruct (str_empty (FLAGS_leveldb_db fl)) eqn:Hl; simpl.
    + apply str_empty_true in Hl. right. right. auto.
    + apply str_empty_false in Hl. right. left. auto.
  - apply str_empty_false in Hs. left. auto.
Qed.

Lemma flag_checks_fail (env : Env) (fl : Flags) :
  flag_checks_pass env fl \/
  (terminated_abnormally (snd (main env fl)) = true /\
   Forall (fun e => network_activity e = false) (fst (main env fl)) /\
   Forall (fun e => database_construction e = false) (fst (main env fl)) /\
   Forall (fun e => fetch_pipeline e = false) (fst (main env fl))).
Proof.
  destruct (flag_checks_pass_dec env fl) as [Hpass | Hfail]; [now left | right].
  apply main_unchecked.
  intros (Hv & Hone & Hdirs).
  destruct Hfail as [Hv' | [[_ Hone'] | (_ & Hone' & Hs & Hl & Heq)]];
    try congruence.
  apply Hdirs; [| exact Heq].
  revert Hone. unfold exactly_one_backend, sqlite_selected, leveldb_selected.
  rewrite Hs, Hl. simpl. now destruct (file_selected fl).
Qed.

(** The whole of a start-up that passes the flag tests. *)
Lemma main_checked_shape (env : Env) (fl : Flags) :
  flag_checks_pass env fl ->
  exists db mid,
    construct_database fl = ([db], inl tt) /\
    database_construction db = true /\ fetch_pipeline db = false /\
    network_activity db = false /\
    Forall (fun e => fetch_pipeline e = false /\ database_construction e = false /\
                     e <> ServerRun) mid /\
    ((snd (main env fl) = Serving /\
      fst (main env fl) =
      preamble ++ db :: mid ++
        [NewThreadPool 16; NewSyncTask;
         NewRemotePeer (FLAGS_target_log_uri fl); NewContinuousFetcher;
         AddPeer "target"; SpawnSTHUpdater; ServerRun]) \/
     (exists what,
        snd (main env fl) = CheckFailed what /\
        fst (main env fl) = preamble ++ db :: mid)).
Proof.
  intros Hpass. rewrite (main_checked env fl Hpass). simpl fst. simpl snd.
  destruct (server_and_mirroring_cases env fl)
    as (mid & Hmid & [(-> & ->) | (what & -> & ->)]);
    destruct (construct_database_cases fl)
      as [(_ & Hdb) | [(_ & _ & Hdb) | (_ & _ & Hdb)]];
    rewrite Hdb; simpl fst;
    eexists; exists mid;
    (split; [reflexivity |]); repeat (split; [reflexivity |]);
    (split; [exact Hmid |]);
    [left | left | left | right; exists what | right; exists what | right; exists what];
    split; reflexivity.
Qed.

(** In a list that continues a prefix free of [P], an element with [P] lies
    beyond the prefix. *)
Lemma beyond_prefix {A : Type} (P : A -> bool) (l1 l2 pre post : list A) (e : A) :
  Forall (fun x => P x = false) l1 ->
  l1 ++ l2 = pre ++ e :: post -> P e = true ->
  exists rest, pre = l1 ++ rest.
Proof.
  revert pre. induction l1 as [| a l1 IH]; intros pre Hall Heq He.
  - exists pre. reflexivity.
  - inversion Hall as [| ? ? Ha Hall1]; subst.
    destruct pre as [| b pre]; simpl in Heq.
    + injection Heq as <- _. congruence.
    + injection Heq as <- Heq.
      destruct (IH pre Hall1 Heq He) as (rest & ->). now exists rest.
Qed.

(** X6: what flag validation lets through.  The registered validators
    accept exactly when the port is in 1..65535, the public key file can be
    read, each of the certificate and tree directories is unset or can be
    written, the two storage depths are not negative and the two
    frequencies with a validator are positive; otherwise the process exits
    with status 1 from flag parsing, before logging is set up. *)
Theorem flag_validation_accepts_iff :
  forall env fl,
    let acceptable :=
      1 <= FLAGS_port fl <= 65535 /\
      access_R_OK env (FLAGS_target_public_key fl) = true /\
      (FLAGS_cert_dir fl = ""%string \/ access_W_OK env (FLAGS_cert_dir fl) = true) /\
      (FLAGS_tree_dir fl = ""%string \/ access_W_OK env (FLAGS_tree_dir fl) = true) /\
      0 <= FLAGS_cert_storage_depth fl /\
      0 <= FLAGS_tree_storage_depth fl /\
      0 < FLAGS_log_stats_frequency_seconds fl /\
      0 < FLAGS_target_poll_frequency_seconds fl in
    (registered_validators_accept env fl = true <-> acceptable) /\
    (~ acceptable ->
     main env fl =
     ([SignalIgnore SIGHUP; SignalIgnore SIGINT; SignalIgnore SIGTERM;
       ParseCommandLineFlags], Exited 1)).
Proof.
  intros env fl acceptable.
  assert (Hiff : registered_validators_accept env fl = true <-> acceptable).
  { subst acceptable.
    unfold registered_validators_accept, ValidatePort, ValidateRead, ValidateWrite,
      ValidateIsNonNegative, ValidateIsPositive.
    rewrite !andb_true_iff.
    destruct (Z.leb_spec (FLAGS_port fl) 0), (Z.gtb_spec (FLAGS_port fl) 65535),
      (access_R_OK env (FLAGS_target_public_key fl)),
      (String.eqb_spec (FLAGS_cert_dir fl) ""),
      (access_W_OK env (FLAGS_cert_dir fl)),
      (String.eqb_spec (FLAGS_tree_dir fl) ""),
      (access_W_OK env (FLAGS_tree_dir fl)),
      (Z.ltb_spec (FLAGS_cert_storage_depth fl) 0),
      (Z.ltb_spec (FLAGS_tree_storage_depth fl) 0),
      (Z.leb_spec (FLAGS_log_stats_frequency_seconds fl) 0),
      (Z.leb_spec (FLAGS_target_poll_frequency_seconds fl) 0); simpl;
      split; intros; try (exfalso; intuition (discriminate || lia));
      intuition (auto; lia). }
  split; [exact Hiff |].
  intros Hnot. apply main_refused.
  destruct (registered_validators_accept env fl); [| reflexivity].
  exfalso. apply Hnot. now apply Hiff.
Qed.

Lemma flag_validation_accepts_iff_witness :
  registered_validators_accept permissive_env
    (file_store_flags 9999 "/ct/certs" "/ct/trees") = true /\
  main (mkEnv (fun _ => false) (fun _ => true) (fun _ => true))
       (file_store_flags 9999 "/ct/certs" "/ct/trees") =
  ([SignalIgnore SIGHUP; SignalIgnore SIGINT; SignalIgnore SIGTERM;
    ParseCommandLineFlags], Exited 1).
Proof.
  split.
  - apply (proj1 (flag_validation_accepts_iff permissive_env
                    (file_store_flags 9999 "/ct/certs" "/ct/trees"))).
    simpl. repeat split; auto; lia.
  - apply (proj2 (flag_validation_accepts_iff
                    (mkEnv (fun _ => false) (fun _ => true) (fun _ => true))
                    (file_store_flags 9999 "/ct/certs" "/ct/trees"))).
    simpl. intros (_ & Hread & _). discriminate.
Defined.

(** X7: when start-up succeeds.  [main] gets to [server.Run()] exactly when
    the flag tests pass, a node of a cluster (etcd host given) names its
    server, the public key flag and the target log URI are not empty, and
    the public key file parses. *)
Theorem serving_iff :
  forall env fl,
    snd (main env fl) = Serving <->
    flag_checks_pass env fl /\
    (FLAGS_etcd_host fl <> ""%string -> FLAGS_server fl <> ""%string) /\
    FLAGS_target_public_key fl <> ""%string /\
    FLAGS_target_log_uri fl <> ""%string /\
    ReadPublicKey_ok env (FLAGS_target_public_key fl) = true.
Proof.
  intros env fl. split.
  - intros Hserving.
    assert (Hpass : flag_checks_pass env fl).
    { destruct (flag_checks_pass_dec env fl) as [Hpass | Hfail]; [exact Hpass |].
      assert (Hnot : ~ flag_checks_pass env fl).
      { intros (Hv & Hone & Hdirs).
        destruct Hfail as [Hv' | [[_ Hone'] | (_ & Hone' & Hs & Hl & Heq)]];
          try congruence.
        apply (Hdirs); [| exact Heq].
        revert Hone. unfold exactly_one_backend, sqlite_selected, leveldb_selected.
        rewrite Hs, Hl. simpl. now destruct (file_selected fl). }
      destruct (main_unchecked env fl Hnot) as (Habn & _).
      rewrite Hserving in Habn. discriminate. }
    split; [exact Hpass |].
    rewrite (main_checked env fl Hpass) in Hserving. simpl in Hserving.
    rewrite server_and_mirroring_outcome in Hserving.
    rewrite <- !str_empty_false.
    destruct (str_empty (FLAGS_etcd_host fl)), (str_empty (FLAGS_server fl)),
      (str_empty (FLAGS_target_public_key fl)), (str_empty (FLAGS_target_log_uri fl)),
      (ReadPublicKey_ok env (FLAGS_target_public_key fl));
      simpl in Hserving; try discriminate; repeat split; auto; discriminate.
  - intros (Hpass & Hsrv & Hkey & Huri & Hread).
    rewrite (main_checked env fl Hpass). simpl.
    rewrite server_and_mirroring_outcome, Hread.
    apply str_empty_false in Hkey, Huri. rewrite Hkey, Huri.
    destruct (str_empty (FLAGS_etcd_host fl)) eqn:Hhost; simpl; [reflexivity |].
    apply str_empty_false in Hhost. apply Hsrv, str_empty_false in Hhost.
    now rewrite Hhost.
Qed.

Lemma serving_iff_witness :
  snd (main permissive_env (file_store_flags 9999 "/ct/certs" "/ct/trees")) = Serving /\
  ReadPublicKey_ok permissive_env "/ct/key.pem" = true.
Proof.
  split.
  - apply (proj2 (serving_iff permissive_env
                    (file_store_flags 9999 "/ct/certs" "/ct/trees"))).
    repeat split; try discriminate.
  - apply (proj1 (serving_iff permissive_env
                    (file_store_flags 9999 "/ct/certs" "/ct/trees")) eq_refl).
Defined.

(** X8: the fetch pipeline is all or nothing.  The thread pool, the peer,
    the fetcher or the updater thread is created in a start-up exactly when
    that start-up ends in [server.Run()], and [server.Run()] is called
    exactly then; a start-up that fails creates none of them. *)
Theorem fetch_pipeline_iff_serving :
  forall env fl,
    (Exists (fun e => fetch_pipeline e = true) (fst (main env fl)) <->
     snd (main env fl) = Serving) /\
    (In ServerRun (fst (main env fl)) <-> snd (main env fl) = Serving) /\
    (snd (main env fl) = Serving ->
     forall e, In e [NewThreadPool 16; NewSyncTask;
                     NewRemotePeer (FLAGS_target_log_uri fl);
                     NewContinuousFetcher; AddPeer "target"; SpawnSTHUpdater] ->
               In e (fst (main env fl))).
Proof.
  intros env fl.
  destruct (flag_checks_fail env fl) as [Hpass | (Habn & Hnet & _ & Hfetch)].
  - destruct (main_checked_shape env fl Hpass)
      as (db & mid & _ & _ & Hdbf & Hdbn & Hmid &
          [(Hout & Htrace) | (what & Hout & Htrace)]);
      rewrite Hout, Htrace; rewrite Forall_forall in Hmid.
    + split; [| split].
      * split; [reflexivity |].
        intros _. apply Exists_exists. exists SpawnSTHUpdater.
        split; [| reflexivity].
        apply in_or_app. right. right. apply in_or_app. right. simpl. auto 10.
      * split; [reflexivity |].
        intros _. apply in_or_app. right. right. apply in_or_app. right.
        simpl. auto 10.
      * intros _ e He. apply in_or_app. right. right. apply in_or_app. right.
        simpl in *. intuition.
    + split; [| split]; [split; [| discriminate] | split; [| discriminate]
                        | discriminate].
      * intros Hex. exfalso. apply Exists_exists in Hex.
        destruct Hex as (e & He & Hf).
        apply in_app_or in He. destruct He as [He | [<- | He]].
        -- unfold preamble in He. simpl in He.
           repeat (destruct He as [<- | He]; [discriminate |]). exact He.
        -- congruence.
        -- destruct (Hmid e He) as (Hq & _). congruence.
      * intros He. exfalso.
        apply in_app_or in He. destruct He as [He | [Hdb | He]].
        -- unfold preamble in He. simpl in He.
           repeat (destruct He as [He | He]; [discriminate |]). exact He.
        -- rewrite Hdb in Hdbn. discriminate.
        -- destruct (Hmid ServerRun He) as (_ & _ & Hq). now apply Hq.
  - rewrite Forall_forall in Hnet, Hfetch.
    assert (Hns : snd (main env fl) <> Serving).
    { intros Hs. rewrite Hs in Habn. discriminate. }
    repeat split; try (intros Hs; now elim Hns).
    + intros Hex. apply Exists_exists in Hex. destruct Hex as (e & He & Hf).
      specialize (Hfetch e He). congruence.
    + intros Hin. specialize (Hnet ServerRun Hin). discriminate.
Qed.

Lemma fetch_pipeline_iff_serving_witness :
  In SpawnSTHUpdater
     (fst (main permissive_env (file_store_flags 9999 "/ct/certs" "/ct/trees"))) /\
  snd (main permissive_env no_target_flags) <> Serving.
Proof.
  split.
  - apply (proj2 (proj2 (fetch_pipeline_iff_serving permissive_env
                    (file_store_flags 9999 "/ct/certs" "/ct/trees"))) eq_refl).
    simpl. auto 10.
  - intros Hs.
    apply (proj2 (proj1 (proj2 (fetch_pipeline_iff_serving permissive_env
                                  no_target_flags)))) in Hs.
    simpl in Hs.
    repeat (destruct Hs as [Hs | Hs]; [discriminate |]). exact Hs.
Defined.

(** X9: one database, the selected one.  A start-up that passes the flag
    tests constructs exactly one database, right after the preamble: the
    SQLite database when [sqlite_db] is set, the LevelDB database when
    [leveldb_db] is set, and otherwise the file database over the
    certificate, tree and meta directories with the two storage depths. *)
Theorem one_database_constructed :
  forall env fl,
    flag_checks_pass env fl ->
    exists db rest,
      fst (main env fl) = preamble ++ db :: rest /\
      Forall (fun e => database_construction e = false) rest /\
      (FLAGS_sqlite_db fl <> ""%string -> db = NewSQLiteDB (FLAGS_sqlite_db fl)) /\
      (FLAGS_leveldb_db fl <> ""%string -> db = NewLevelDB (FLAGS_leveldb_db fl)) /\
      (FLAGS_sqlite_db fl = ""%string -> FLAGS_leveldb_db fl = ""%string ->
       db = NewFileDB (FLAGS_cert_dir fl) (FLAGS_cert_storage_depth fl)
                      (FLAGS_tree_dir fl) (FLAGS_tree_storage_depth fl)
                      (FLAGS_meta_dir fl)).
Proof.
  intros env fl Hpass.
  destruct (main_checked_shape env fl Hpass)
    as (db & mid & Hdb & _ & _ & _ & Hmid & Hshape).
  assert (Hone : exactly_one_backend fl = true) by apply Hpass.
  assert (Hquiet : Forall (fun e => database_construction e = false) mid).
  { eapply Forall_impl; [| exact Hmid]. simpl. intros e He. apply He. }
  exists db.
  exists (match snd (main env fl) with
          | Serving => mid ++ [NewThreadPool 16; NewSyncTask;
                               NewRemotePeer (FLAGS_target_log_uri fl);
                               NewContinuousFetcher; AddPeer "target";
                               SpawnSTHUpdater; ServerRun]
          | _ => mid
          end).
  split; [| split].
  - destruct Hshape as [(-> & ->) | (what & -> & ->)]; reflexivity.
  - destruct Hshape as [(-> & _) | (what & -> & _)]; [| exact Hquiet].
    apply Forall_app. split; [exact Hquiet | repeat constructor].
  - destruct (construct_database_cases fl)
      as [(Hs & Hc) | [(Hs & Hl & Hc) | (Hs & Hl & Hc)]];
      rewrite Hc in Hdb; injection Hdb as <-;
      repeat split; intros; try congruence.
    exfalso. revert Hone.
    unfold exactly_one_backend, sqlite_selected, leveldb_selected.
    apply str_empty_false in Hs. rewrite Hs.
    match goal with H : FLAGS_leveldb_db fl <> _ |- _ =>
      apply str_empty_false in H; rewrite H end.
    simpl. discriminate.
Qed.

Lemma one_database_constructed_witness :
  exists rest,
    fst (main permissive_env (cluster_flags "mirror.example")) =
    preamble ++ NewSQLiteDB "/ct/db.sqlite" :: rest /\
    Forall (fun e => database_construction e = false) rest.
Proof.
  destruct (one_database_constructed permissive_env (cluster_flags "mirror.example"))
    as (db & rest & Htrace & Hrest & Hsqlite & _).
  - repeat split. discriminate.
  - exists rest. pose proof (Hsqlite ltac:(discriminate)) as Hd.
    simpl in Hd. subst db. auto.
Defined.

(** X10: a node of a cluster.  With the etcd host given, a start-up that
    passes the flag tests builds the real etcd client for that host and
    port, never the fake one, and neither writes a cluster configuration
    nor takes part in an election from [main]; when the server flag is
    empty it stops at the [CHECK] of line 332, after the server object has
    been built and initialised. *)
Theorem cluster_node_start_up :
  forall env fl,
    flag_checks_pass env fl ->
    FLAGS_etcd_host fl <> ""%string ->
    In (NewEtcdClient (FLAGS_etcd_host fl) (FLAGS_etcd_port fl)) (fst (main env fl)) /\
    Forall (fun e => e <> NewFakeEtcdClient /\ (forall c, e <> SetClusterConfig c) /\
                     e <> StartElection /\ e <> WaitToBecomeMaster)
           (fst (main env fl)) /\
    (FLAGS_server fl = ""%string ->
     snd (main env fl) = CheckFailed "!FLAGS_server.empty()" /\
     In (ServerInitialise true) (fst (main env fl)) /\
     Forall (fun e => fetch_pipeline e = false) (fst (main env fl))).
Proof.
  intros env fl Hpass Hhost.
  rewrite (main_checked env fl Hpass). simpl fst. simpl snd.
  apply str_empty_false in Hhost.
  unfold construct_server, start_mirroring, CHECK. rewrite Hhost.
  destruct (construct_database_cases fl)
    as [(_ & ->) | [(_ & _ & ->) | (_ & _ & ->)]];
    destruct (str_empty (FLAGS_server fl)) eqn:Hsrv,
      (str_empty (FLAGS_target_public_key fl)),
      (str_empty (FLAGS_target_log_uri fl)),
      (ReadPublicKey_ok env (FLAGS_target_public_key fl));
    unfold preamble; simpl.
  all: split; [auto 20 | split].
  all: try (repeat constructor; discriminate).
  all: intros Hempty; try (apply str_empty_true in Hempty; congruence).
  all: split; [reflexivity | split; [auto 20 | repeat constructor]].
Qed.

Lemma cluster_node_start_up_witness :
  In (NewEtcdClient "etcd.example" 4001)
     (fst (main permissive_env (cluster_flags "mirror.example"))) /\
  snd (main permissive_env (cluster_flags "")) = CheckFailed "!FLAGS_server.empty()".
Proof.
  split.
  - apply (cluster_node_start_up permissive_env (cluster_flags "mirror.example")).
    + repeat split. discriminate.
    + discriminate.
  - apply (cluster_node_start_up permissive_env (cluster_flags "")).
    + repeat split. discriminate.
    + discriminate.
    + reflexivity.
Defined.

(** X11: nothing on the network before the flags are checked and the
    database exists.  A start-up that builds the event base, an etcd
    client, the server, the peer or the fetcher, or takes part in the
    election, has passed every flag test, and each such step comes after
    the construction of the database. *)
Theorem network_only_after_database :
  forall env fl,
    (Exists (fun e => network_activity e = true) (fst (main env fl)) ->
     flag_checks_pass env fl) /\
    (forall pre e post,
        fst (main env fl) = pre ++ e :: post ->
        network_activity e = true ->
        Exists (fun d => database_construction d = true) pre).
Proof.
  intros env fl.
  destruct (flag_checks_fail env fl) as [Hpass | (_ & Hnet & _)].
  - split; [intros _; exact Hpass |].
    intros pre e post Htrace He.
    destruct (main_checked_shape env fl Hpass)
      as (db & mid & _ & Hdb & _ & Hdbn & _ & Hshape).
    assert (Hsplit : exists rest, fst (main env fl) = (preamble ++ [db]) ++ rest).
    { destruct Hshape as [(_ & ->) | (what & _ & ->)];
        eexists; rewrite <- app_assoc; reflexivity. }
    destruct Hsplit as (rest & Hrest). rewrite Hrest in Htrace.
    destruct (beyond_prefix network_activity (preamble ++ [db]) rest pre post e)
      as (rest' & ->); [| exact Htrace | exact He |].
    + apply Forall_app. split; [repeat constructor |].
      constructor; [exact Hdbn | constructor].
    + apply Exists_app. left. apply Exists_app. right. now constructor.
  - rewrite Forall_forall in Hnet. split.
    + intros Hex. apply Exists_exists in Hex. destruct Hex as (e & He & Hn).
      specialize (Hnet e He). congruence.
    + intros pre e post Htrace He.
      specialize (Hnet e). rewrite Htrace in Hnet.
      rewrite Hnet in He; [discriminate |].
      apply in_or_app. right. now left.
Qed.

Lemma network_only_after_database_witness :
  flag_checks_pass permissive_env (cluster_flags "mirror.example").
Proof.
  apply (proj1 (network_only_after_database permissive_env
                  (cluster_flags "mirror.example"))).
  apply Exists_exists. exists NewEventBase. split; [simpl; auto 20 | reflexivity].
Defined.

Lemma accepted_key_readable (env : Env) (fl : Flags) :
  registered_validators_accept env fl = true ->
  access_R_OK env (FLAGS_target_public_key fl) = true.
Proof.
  unfold registered_validators_accept, ValidateRead.
  rewrite !andb_true_iff. intros (((((((_ & Hread) & _) & _) & _) & _) & _) & _).
  now destruct (access_R_OK env (FLAGS_target_public_key fl)).
Qed.

(** X12: the tests of lines 332-340 come late.  Where the empty path
    cannot be read, a start-up that passes the flag tests has a public key
    flag that is not empty, so the [CHECK] of line 335 cannot fail.  When a
    cluster node has an empty server flag, or the target log URI is empty,
    or the key file does not parse, start-up stops at the first of these
    [CHECK]s that fails (lines 332, 336, 339, in that order), and only
    after the server has been initialised; a stand-alone node has by then
    written its configuration and waited to become master.  Nothing of the
    fetch pipeline has been created. *)
Theorem target_log_checks_come_late :
  forall env fl,
    flag_checks_pass env fl ->
    access_R_OK env "" = false ->
    FLAGS_target_public_key fl <> ""%string /\
    ((FLAGS_etcd_host fl <> ""%string /\ FLAGS_server fl = ""%string) \/
     FLAGS_target_log_uri fl = ""%string \/
     ReadPublicKey_ok env (FLAGS_target_public_key fl) = false ->
     snd (main env fl) =
     CheckFailed (if negb (str_empty (FLAGS_etcd_host fl)) &&
                     str_empty (FLAGS_server fl)
                  then "!FLAGS_server.empty()"
                  else if str_empty (FLAGS_target_log_uri fl)
                       then "!FLAGS_target_log_uri.empty()"
                       else "pubkey.ok()") /\
     In (ServerInitialise true) (fst (main env fl)) /\
     (FLAGS_etcd_host fl = ""%string ->
      In (SetClusterConfig (mkClusterConfig 1 1)) (fst (main env fl)) /\
      In WaitToBecomeMaster (fst (main env fl))) /\
     Forall (fun e => fetch_pipeline e = false) (fst (main env fl))).
Proof.
  intros env fl Hpass Hnoread.
  assert (Hkey : FLAGS_target_public_key fl <> ""%string).
  { intros Hempty. destruct Hpass as (Hv & _).
    apply accepted_key_readable in Hv. rewrite Hempty in Hv. congruence. }
  split; [exact Hkey |].
  intros Hbad.
  rewrite (main_checked env fl Hpass). simpl fst. simpl snd.
  apply str_empty_false in Hkey.
  rewrite <- str_empty_false in Hbad. rewrite <- !str_empty_true in Hbad.
  rewrite <- str_empty_true.
  unfold construct_server, start_mirroring, CHECK. rewrite Hkey.
  destruct (construct_database_cases fl)
    as [(_ & ->) | [(_ & _ & ->) | (_ & _ & ->)]];
    destruct (str_empty (FLAGS_etcd_host fl)) eqn:Hhost,
      (str_empty (FLAGS_server fl)) eqn:Hserver,
      (str_empty (FLAGS_target_log_uri fl)),
      (ReadPublicKey_ok env (FLAGS_target_public_key fl));
    unfold preamble; simpl.
  all: try (exfalso; intuition discriminate).
  all: split; [reflexivity |].
  all: split; [auto 20 |].
  all: split; [| repeat constructor].
  all: intros Hh; try discriminate; split; auto 20.
Qed.

Lemma target_log_checks_come_late_witness :
  snd (main strict_env no_target_flags) =
  CheckFailed "!FLAGS_target_log_uri.empty()" /\
  In WaitToBecomeMaster (fst (main strict_env no_target_flags)) /\
  snd (main strict_env (cluster_flags "")) = CheckFailed "!FLAGS_server.empty()".
Proof.
  destruct (target_log_checks_come_late strict_env no_target_flags)
    as (_ & Hlate); [repeat split; discriminate | reflexivity |].
  destruct Hlate as (Hout & _ & Hsa & _); [right; left; reflexivity |].
  destruct (target_log_checks_come_late strict_env (cluster_flags ""))
    as (_ & Hlate'); [repeat split; discriminate | reflexivity |].
  destruct Hlate' as (Hout' & _); [left; split; [discriminate | reflexivity] |].
  split; [exact Hout | split; [apply Hsa; reflexivity | exact Hout']].
Defined.
